(** * Billing service of the restaurant simulation

    A shallow embedding of [BillingService] (the cashier): the delivery
    ledger ([guestOrders]), the book of open bills ([bills]), payment
    settlement, the payment-option policy and the menu retry schedule.

    JavaScript values are modelled as the code uses them:
    - identifiers (guest, order, bill, menu item ids) are integers, [Z];
      the unary [+] of the source is the identity on them;
    - amounts and prices are IEEE 754 binary64 numbers, Rocq's [float];
    - arrays are lists, [a[i]] is [at_index], [find]/[findIndex] return the
      first match, [splice] follows the ECMAScript clamping of its start;
    - objects found in an array and then assigned to are updated in place,
      at the index where they were found;
    - a property read on [undefined] raises [TypeError].

    The food and drink arrays of an item registration are taken to be
    fresh objects, as they are when parsed from a request body: no two
    order lines of the ledger share an array.  Bills never share arrays
    with the ledger, [addFoodOrderToBill] copies them. *)

From Stdlib Require Import ZArith Floats Lia.
From stdpp Require Import base tactics option numbers list gmultiset.

Set Warnings "-inexact-float".
Local Open Scope Z_scope.

(** ** Data model *)

(** Modelled from the spec: the type declarations of [./types/types] are
    not among the sources.  The records below have the fields the methods
    read and write, with the types of the data model of the design
    documents (integer ids, numeric prices and totals).  Field names that
    occur in two types carry a prefix. *)
Record MenuItem := { item_id : Z; price : float }.

Record Menu := { menu_food : list MenuItem; menu_drinks : list MenuItem }.

Record OrderLine := { order : Z; food : list Z; drinks : list Z }.

Record GuestOrders := { guest : Z; orders : list OrderLine }.

Record Bill := {
  bill : Z;
  bill_guest : Z;
  bill_orders : list OrderLine;
  totalSum : float
}.

Record GuestBill := {
  gb_bill : Z;
  orderedDrinks : list Z;
  orderedFood : list Z;
  gb_totalSum : float
}.

Record PaidOrder := { po_order : Z; paidDrinks : list Z; paidFood : list Z }.

Record PaidBill := {
  pb_bill : Z;
  paidOrders : list PaidOrder;
  pb_totalSum : float
}.

Record ItemRegistration := {
  ir_guest : Z;
  ir_order : Z;
  ir_food : list Z;
  ir_drinks : list Z
}.

Inductive PAYMENT_METHOD := Cash | DebitCard | CreditCard.

(** The fields of a [BillingService] instance.  [menu] is [undefined]
    ([None]) until [getMenu] has succeeded. *)
Record BillingService := {
  bills : list Bill;
  guestOrders : list GuestOrders;
  menu : option Menu;
  billIdCounter : Z;
  retryCounter : Z;
  fibonacciSeq : list Z
}.

Definition set_bills (bs : list Bill) (this : BillingService) : BillingService :=
  {| bills := bs; guestOrders := guestOrders this; menu := menu this;
     billIdCounter := billIdCounter this; retryCounter := retryCounter this;
     fibonacciSeq := fibonacciSeq this |}.

Definition set_guestOrders (gs : list GuestOrders) (this : BillingService) : BillingService :=
  {| bills := bills this; guestOrders := gs; menu := menu this;
     billIdCounter := billIdCounter this; retryCounter := retryCounter this;
     fibonacciSeq := fibonacciSeq this |}.

Definition set_menu (m : option Menu) (this : BillingService) : BillingService :=
  {| bills := bills this; guestOrders := guestOrders this; menu := m;
     billIdCounter := billIdCounter this; retryCounter := retryCounter this;
     fibonacciSeq := fibonacciSeq this |}.

Definition set_billIdCounter (n : Z) (this : BillingService) : BillingService :=
  {| bills := bills this; guestOrders := guestOrders this; menu := menu this;
     billIdCounter := n; retryCounter := retryCounter this;
     fibonacciSeq := fibonacciSeq this |}.

Definition set_retryCounter (n : Z) (this : BillingService) : BillingService :=
  {| bills := bills this; guestOrders := guestOrders this; menu := menu this;
     billIdCounter := billIdCounter this; retryCounter := n;
     fibonacciSeq := fibonacciSeq this |}.

(** ** Failures

    The only exception the methods can raise is the runtime's [TypeError]
    for a property read on [undefined].  [Failure] lists the failures the
    design documents name; no statement of the source raises one of them,
    they are here so that a result can be compared against them. *)

Inductive Failure := BillNotFound | GuestNotFound | UnknownMenuItem | MenuNotReady.

Inductive exn := TypeError | Explicit (f : Failure).

(** Result of a computation on local values. *)
Inductive result (A : Type) := Ok (a : A) | Err (e : exn).
Arguments Ok {A} a.
Arguments Err {A} e.

(** Result of a method call: the value returned or the exception thrown,
    with the fields of [this] as the call leaves them. *)
Inductive completion (A : Type) :=
| Return (a : A) (this : BillingService)
| Throw (e : exn) (this : BillingService).
Arguments Return {A} a this.
Arguments Throw {A} e this.

Definition final_state {A} (c : completion A) : BillingService :=
  match c with Return _ s => s | Throw _ s => s end.

Definition bind {A B} (r : result A) (k : A → result B) : result B :=
  match r with Ok a => k a | Err e => Err e end.

Notation "x ←! r ; k" := (bind r (λ x, k))
  (at level 20, r at level 100, k at level 200, right associativity,
   format "x  ←!  r ;  '/' k").

(** ** JavaScript arrays *)

Section Arrays.
Context {A : Type}.

(** [a[i]]: [undefined] outside [0 .. length-1], in particular at [-1]. *)
Definition at_index (l : list A) (i : Z) : option A :=
  if decide (0 ≤ i) then l !! Z.to_nat i else None.

(** [a.findIndex(P)]: index of the first match, [-1] when there is none. *)
Definition findIndex (P : A → Prop) `{∀ x, Decision (P x)} (l : list A) : Z :=
  match list_find P l with
  | Some (i, _) => Z.of_nat i
  | None => -1
  end.

(** [a.find(P)]: the first match.  The object found is shared with the
    array, so a later assignment to one of its fields is an update of the
    array at the index found; [list_find] keeps that index. *)
Definition find (P : A → Prop) `{∀ x, Decision (P x)} (l : list A) : option A :=
  snd <$> list_find P l.

(** [a.splice(start, deleteCount, ...items)], the array after the call. *)
Definition splice (start : Z) (deleteCount : nat) (items : list A) (l : list A) : list A :=
  let len := Z.of_nat (length l) in
  let from := Z.to_nat (if decide (start < 0) then Z.max (len + start) 0 else Z.min start len) in
  take from l ++ items ++ drop (from + deleteCount) l.

(** Assignment to a field of the object [a[i]]: the object stays where it
    is in the array. *)
Definition update_at (i : Z) (f : A → A) (l : list A) : list A :=
  if decide (0 ≤ i) then alter f (Z.to_nat i) l else l.

(** [a.forEach(body)] where the body updates a local accumulator and may throw. *)
Fixpoint forEach {S : Type} (l : list A) (body : S → A → result S) (s : S) : result S :=
  match l with
  | [] => Ok s
  | x :: l' =>
      match body s x with
      | Ok s' => forEach l' body s'
      | Err e => Err e
      end
  end.
End Arrays.

(** [a.includes(x)] on an array of ids. *)
Definition includes (l : list Z) (x : Z) : bool := bool_decide (x ∈ l).

(** ** getPaymentOption *)

Definition getPaymentOption (amount : float) : list PAYMENT_METHOD :=
  let paymentMethods := [Cash] in
  if (amount <? 20)%float then paymentMethods
  else paymentMethods ++ [DebitCard; CreditCard].

(** ** generateBill *)

Definition copyLine (o : OrderLine) : OrderLine :=
  {| order := order o; food := food o; drinks := drinks o |}.

(** One round of the [forEach] of [addFoodOrderToBill]. *)
Definition addOrder (billOrders : list OrderLine) (o : OrderLine) : list OrderLine :=
  match list_find (λ billOrder, order billOrder = order o) billOrders with
  | Some (i, existingOrder) =>
      <[i := {| order := order existingOrder; food := food o; drinks := drinks o |}]> billOrders
  | None =>
      billOrders ++ [{| order := order o; food := food o; drinks := drinks o |}]
  end.

Definition addFoodOrderToBill (guestDelivery : GuestOrders) (newBill : Bill) : Bill :=
  {| bill := bill newBill; bill_guest := bill_guest newBill;
     bill_orders := foldl addOrder (bill_orders newBill) (orders guestDelivery);
     totalSum := totalSum newBill |}.

(** [this.menu.<category>.find(item => item.id === id).price] added to the sum. *)
Definition addPrice (m : option Menu) (category : Menu → list MenuItem)
    (sum : float) (id : Z) : result float :=
  match m with
  | None => Err TypeError
  | Some mn =>
      match find (λ item, item_id item = id) (category mn) with
      | Some item => Ok (sum + price item)%float
      | None => Err TypeError
      end
  end.

(** The body of the outer [forEach] of [calculateTotalSum]: the drinks of
    the line, then its food. *)
Definition addLine (m : option Menu) (sum : float) (o : OrderLine) : result float :=
  sum1 ←! forEach (drinks o) (addPrice m menu_drinks) sum;
  forEach (food o) (addPrice m menu_food) sum1.

Definition calculateTotalSum (m : option Menu) (newBill : Bill) : result Bill :=
  sum ←! forEach (bill_orders newBill) (addLine m) (totalSum newBill);
  Ok {| bill := bill newBill; bill_guest := bill_guest newBill;
        bill_orders := bill_orders newBill; totalSum := sum |}.

Definition guestBillOf (newBill : Bill) : GuestBill :=
  {| gb_bill := bill newBill;
     orderedDrinks := flat_map drinks (bill_orders newBill);
     orderedFood := flat_map food (bill_orders newBill);
     gb_totalSum := totalSum newBill |}.

Definition generateBill (guestDelivery : GuestOrders) (this : BillingService)
    : completion GuestBill :=
  let billIndex := findIndex (λ b, bill_guest b = guest guestDelivery) (bills this) in
  let start : result (Bill * BillingService) :=
    if decide (0 ≤ billIndex) then
      match at_index (bills this) billIndex with
      | Some b =>
          Ok ({| bill := bill b; bill_guest := bill_guest b;
                 bill_orders := copyLine <$> bill_orders b; totalSum := 0 |}, this)
      | None => Err TypeError
      end
    else
      Ok ({| bill := billIdCounter this; bill_guest := guest guestDelivery;
             bill_orders := []; totalSum := 0 |},
          set_billIdCounter (billIdCounter this + 1) this)
  in
  match start with
  | Err e => Throw e this
  | Ok (newBill, this1) =>
      match calculateTotalSum (menu this1) (addFoodOrderToBill guestDelivery newBill) with
      | Err e => Throw e this1
      | Ok newBill' =>
          let this2 :=
            if decide (0 ≤ billIndex)
            then set_bills (splice billIndex 1 [newBill'] (bills this1)) this1
            else set_bills (bills this1 ++ [newBill']) this1 in
          Return (guestBillOf newBill') this2
      end
  end.

(** ** registerPayment *)

(** [if (l.includes(x)) l.splice(l.findIndex(y => x === y), 1)] *)
Definition removeOccurrence (l : list Z) (x : Z) : list Z :=
  if includes l x then splice (findIndex (λ y, x = y) l) 1 [] l else l.

(** The body of the [forEach] over the delivered orders of the guest. *)
Definition removeBilledItems (b : Bill) (o : OrderLine) : OrderLine :=
  match find (λ orderObj, order orderObj = order o) (bill_orders b) with
  | Some billOrder =>
      {| order := order o;
         food := foldl removeOccurrence (food o) (food billOrder);
         drinks := foldl removeOccurrence (drinks o) (drinks billOrder) |}
  | None => o
  end.

Definition set_orders (os : list OrderLine) (g : GuestOrders) : GuestOrders :=
  {| guest := guest g; orders := os |}.

(** Returns the index of the guest's entry and its order lines; the lines
    are updated in place, so the ledger of [this] changes with them. *)
Definition removeBillItemsFromDeliveredItems (b : Bill) (this : BillingService)
    : result (Z * list OrderLine * BillingService) :=
  let deliveredItemsIndex := findIndex (λ items, guest items = bill_guest b) (guestOrders this) in
  match at_index (guestOrders this) deliveredItemsIndex with
  | None => Err TypeError
  | Some entry =>
      let deliveredOrders := removeBilledItems b <$> orders entry in
      Ok (deliveredItemsIndex, deliveredOrders,
          set_guestOrders
            (update_at deliveredItemsIndex (set_orders deliveredOrders) (guestOrders this))
            this)
  end.

Definition nonEmptyLine (o : OrderLine) : Prop := food o ≠ [] ∨ drinks o ≠ [].

#[global] Instance nonEmptyLine_dec o : Decision (nonEmptyLine o).
Proof. unfold nonEmptyLine. apply _. Defined.

Definition paidOrderOf (o : OrderLine) : PaidOrder :=
  {| po_order := order o; paidDrinks := drinks o; paidFood := food o |}.

Definition registerPayment (billId : Z) (this : BillingService) : completion PaidBill :=
  let billIndex := findIndex (λ b, bill b = billId) (bills this) in
  match at_index (bills this) billIndex with
  | None => Throw TypeError this
  | Some b =>
      let paidOrders := flat_map (λ o, [paidOrderOf o]) (bill_orders b) in
      let paidBill := {| pb_bill := billId; paidOrders := paidOrders; pb_totalSum := totalSum b |} in
      match removeBillItemsFromDeliveredItems b this with
      | Err e => Throw e this
      | Ok (deliveredItemsIndex, deliveredOrders, this1) =>
          match at_index (guestOrders this1) deliveredItemsIndex with
          | None => Throw TypeError this1
          | Some _ =>
              let this2 :=
                set_guestOrders
                  (update_at deliveredItemsIndex
                     (set_orders (filter nonEmptyLine deliveredOrders))
                     (guestOrders this1))
                  this1 in
              Return paidBill (set_bills (splice billIndex 1 [] (bills this2)) this2)
          end
      end
  end.

(** ** registerDeliveredItems *)

Definition registerDeliveredItems (itemRegistration : ItemRegistration)
    (this : BillingService) : BillingService :=
  let newLine := {| order := ir_order itemRegistration;
                    food := ir_food itemRegistration;
                    drinks := ir_drinks itemRegistration |} in
  match list_find (λ items, guest items = ir_guest itemRegistration) (guestOrders this) with
  | Some (gi, guestDelivery) =>
      match list_find (λ deliveryOrder, order deliveryOrder = ir_order itemRegistration)
              (orders guestDelivery) with
      | Some (oi, guestOrder) =>
          let merged := {| order := order guestOrder;
                           food := food guestOrder ++ ir_food itemRegistration;
                           drinks := drinks guestOrder ++ ir_drinks itemRegistration |} in
          set_guestOrders
            (<[gi := set_orders (<[oi := merged]> (orders guestDelivery)) guestDelivery]>
               (guestOrders this))
            this
      | None =>
          set_guestOrders
            (<[gi := set_orders (orders guestDelivery ++ [newLine]) guestDelivery]>
               (guestOrders this))
            this
      end
  | None =>
      set_guestOrders
        (guestOrders this ++ [{| guest := ir_guest itemRegistration; orders := [newLine] |}])
        this
  end.

(** ** The menu retry loop *)

Definition MAX_RETRY_COUNT : Z := 5.

(** The first [n] numbers of the Fibonacci sequence that starts with [a], [b]. *)
Fixpoint fibonacciFrom (a b : Z) (n : nat) : list Z :=
  match n with
  | O => []
  | S n' => a :: fibonacciFrom b (a + b) n'
  end.

(** Modelled from the spec: [getFibonacciSequence] is imported from
    [./utils], which is not among the sources.  The design documents
    describe its result for length 5 as the Fibonacci sequence 1,1,2,3,5.
    ([delay], from the same module, only waits; the model records the
    wait it is given.) *)
Definition getFibonacciSequence (length : Z) : list Z :=
  fibonacciFrom 1 1 (Z.to_nat length).

(** The field initialisers of the class ([menu] is assigned by [getMenu]). *)
Definition newBillingService : BillingService :=
  {| bills := []; guestOrders := []; menu := None; billIdCounter := 1;
     retryCounter := MAX_RETRY_COUNT;
     fibonacciSeq := getFibonacciSequence MAX_RETRY_COUNT |}.

(** A wait in milliseconds; [None] is the [NaN] that [undefined * 1000] gives. *)
Definition millis := option Z.

(** [handleGetMenuErrors] up to its final [return this.getMenu()]: the wait
    passed to [delay] and the fields afterwards. *)
Definition handleGetMenuErrors (this : BillingService) : millis * BillingService :=
  let '(retryIn, this1) :=
    if decide (0 < retryCounter this) then
      let fibNum := at_index (fibonacciSeq this) (MAX_RETRY_COUNT - retryCounter this) in
      ((λ f, f * 1000) <$> fibNum, this)
    else
      (Some (60 * 1000), set_retryCounter MAX_RETRY_COUNT this)
  in
  (retryIn, set_retryCounter (retryCounter this1 - 1) this1).

(** [getMenu] against the answers of the pricing endpoint, one per attempt
    ([None]: the fetch failed or timed out).  Returns the waits performed, in
    order, and the fields when the menu arrives or the answers run out. *)
Fixpoint getMenu (answers : list (option Menu)) (this : BillingService)
    : list millis * BillingService :=
  match answers with
  | [] => ([], this)
  | Some m :: _ => ([], set_menu (Some m) this)
  | None :: rest =>
      let '(retryIn, this1) := handleGetMenuErrors this in
      let '(waits, this2) := getMenu rest this1 in
      (retryIn :: waits, this2)
  end.

(** * The table service: processing an order (order.ts)

    [processOrder] and its helpers talk to two other services.  The model
    keeps the module variable [orderNumber], the request bodies posted so
    far, and the answers FoodPreparation will give to the coming
    [/orderItem] requests, one per request.  One call is modelled from start
    to end: no second [processOrder] runs between its awaits. *)

Module TableService.

(** The declaration of [Order] ([./types]) is not among the sources: the
    record has the fields the functions read; [drink] may be missing. *)
Record Order := { guest : Z; food : list Z; drink : option (list Z) }.

(** The bodies of the two POST requests. *)
Inductive Request :=
| OrderItem (id order : Z)
| OrderInformation (guest : Z) (food drinks : list Z) (order : Z).

(** What [processOrder] resolves to. *)
Record Receipt := { waitingTime : Z; order : Z }.

(** [positions]: the answer to each coming [/orderItem] request, the
    position in the queue, or [None] when the fetch or the parsing of its
    body fails. *)
Record World := {
  orderNumber : Z;
  posted : list Request;
  positions : list (option Z)
}.

(** How an [async] function ends: its promise resolves, rejects, or stays
    pending on a request that is never answered. *)
Inductive outcome (A : Type) :=
| Resolved (a : A) (w : World)
| Rejected (w : World)
| Pending (w : World).
Arguments Resolved {A} a w.
Arguments Rejected {A} w.
Arguments Pending {A} w.

Definition averageWaitingTimePerGuest : Z := 4.

Definition post (r : Request) (w : World) : World :=
  {| orderNumber := orderNumber w; posted := posted w ++ [r]; positions := positions w |}.

Definition answered (w : World) : World :=
  {| orderNumber := orderNumber w; posted := posted w; positions := tail (positions w) |}.

(** The [for ... of] loop of [sendFoodToFoodPreparation]. *)
Fixpoint sendFoodItems (foodOrder : list Z) (highestOrderPosition : Z) (w : World)
    : outcome Z :=
  match foodOrder with
  | [] => Resolved highestOrderPosition w
  | foodId :: rest =>
      let w1 := post (OrderItem foodId (orderNumber w)) w in
      match positions w1 with
      | [] => Pending w1
      | None :: _ => Rejected (answered w1)
      | Some orderPosition :: _ =>
          sendFoodItems rest
            (if decide (orderPosition > highestOrderPosition)
             then orderPosition else highestOrderPosition)
            (answered w1)
      end
  end.

Definition sendFoodToFoodPreparation (order : Order) (w : World) : outcome Z :=
  sendFoodItems (food order) 0 w.

(** The request is sent off without waiting for its answer. *)
Definition sendOrderToDelivery (order : Order) (w : World) : World :=
  let sentOrder :=
    OrderInformation (guest order) (food order) (default [] (drink order)) (orderNumber w) in
  let w1 := post sentOrder w in
  {| orderNumber := orderNumber w1 + 1; posted := posted w1; positions := positions w1 |}.

Definition calculateWaitingTime (highestOrderPosition : Z) : Z :=
  highestOrderPosition * averageWaitingTimePerGuest.

Definition processOrder (order : Order) (w : World) : outcome Receipt :=
  match sendFoodToFoodPreparation order w with
  | Resolved highestOrderPosition w1 =>
      let w2 := sendOrderToDelivery order w1 in
      let waitingTime := calculateWaitingTime highestOrderPosition in
      Resolved {| waitingTime := waitingTime; order := orderNumber w2 - 1 |} w2
  | Rejected w1 => Rejected w1
  | Pending w1 => Pending w1
  end.

(** The module as loaded: [orderNumber] is 1. *)
Definition start (answers : list (option Z)) : World :=
  {| orderNumber := 1; posted := []; positions := answers |}.

End TableService.

(** * The assistant manager: handing a delivery to the customer

    [sendOrderItems] numbers the delivery with the module variable
    [deliveryId] and posts it to the customer service.  The model keeps that
    counter, the flag [isDelivering] and the posts made.  Two things come
    from outside: whether the URL built from the environment and the ids is
    one [new URL] accepts (it throws otherwise, before anything else
    happens), and whether the POST succeeds (a failure is caught and
    logged).  [fetchBilling] has an empty body: nothing is sent to billing. *)

Module Assistant.

(** The declaration of [GuestWithOrder] ([./interfaces]) is not among the
    sources: the records have the fields [sendOrderItems] reads. *)
Record DeliveryOrder := { order : Z; food : list Z; drinks : list Z }.

Record GuestWithOrder := { guest : Z; Order : DeliveryOrder }.

(** A POST to [/guest/<guest>/deliveries/<order>] with its body, and
    whether it got through. *)
Record CustomerPost := {
  to_guest : Z;
  to_order : Z;
  delivery : Z;
  sent_food : list Z;
  sent_drinks : list Z;
  arrived : bool
}.

Record State := {
  deliveryId : Z;
  isDelivering : bool;
  posts : list CustomerPost
}.

(** What the call meets outside: a URL that parses, a POST that succeeds. *)
Record Outside := { urlParses : bool; postSucceeds : bool }.

(** The body [registerDeliveryForBilling] builds for the billing service. *)
Record BillingBody := {
  for_guest : Z;
  for_food : list Z;
  for_drinks : list Z;
  for_order : Z;
  for_delivery : Z
}.

(** [fetchBilling]: the body of the method is empty. *)
Definition fetchBilling (deliveryBody : BillingBody) (st : State) : State := st.

Definition registerDeliveryForBilling (d : GuestWithOrder) (deliveryId : Z) (st : State)
    : State :=
  let deliveryBody :=
    {| for_guest := guest d; for_food := food (Order d); for_drinks := drinks (Order d);
       for_order := order (Order d); for_delivery := deliveryId |} in
  fetchBilling deliveryBody st.

Definition set_isDelivering (flag : bool) (st : State) : State :=
  {| deliveryId := deliveryId st; isDelivering := flag; posts := posts st |}.

(** [None]: [new URL] threw, the promise rejects and nothing has changed. *)
Definition sendOrderItems (d : GuestWithOrder) (env : Outside) (st : State)
    : option State :=
  if urlParses env then
    let st1 := {| deliveryId := deliveryId st + 1; isDelivering := isDelivering st;
                  posts := posts st |} in
    let deliveryBody :=
      {| to_guest := guest d; to_order := order (Order d); delivery := deliveryId st1;
         sent_food := food (Order d); sent_drinks := drinks (Order d);
         arrived := postSucceeds env |} in
    let st2 := set_isDelivering true st1 in
    let st3 := {| deliveryId := deliveryId st2; isDelivering := isDelivering st2;
                  posts := posts st2 ++ [deliveryBody] |} in
    let st4 := registerDeliveryForBilling d (delivery deliveryBody) st3 in
    Some (set_isDelivering false st4)
  else None.

(** Calls made one after the other; a call that rejects leaves the state. *)
Definition sendAll (calls : list (GuestWithOrder * Outside)) (st : State) : State :=
  foldl (λ s call, default s (sendOrderItems call.1 call.2 s)) st calls.

(** The module as loaded. *)
Definition start : State := {| deliveryId := 0; isDelivering := false; posts := [] |}.

(** The post [sendOrderItems] makes for a delivery under a given id. *)
Definition postOf (id : Z) (call : GuestWithOrder * Outside) : CustomerPost :=
  {| to_guest := guest call.1; to_order := order (Order call.1); delivery := id;
     sent_food := food (Order call.1); sent_drinks := drinks (Order call.1);
     arrived := postSucceeds call.2 |}.

(** The posts of calls made one after the other from delivery id [from]. *)
Fixpoint postsFrom (from : Z) (calls : list (GuestWithOrder * Outside)) : list CustomerPost :=
  match calls with
  | [] => []
  | call :: calls' =>
      if urlParses call.2
      then postOf (from + 1) call :: postsFrom (from + 1) calls'
      else postsFrom from calls'
  end.

End Assistant.

(** * Specification

    What the statements below are about: the observations made on a
    service, the state invariant, and the price sum of a bill. *)

(** The order line the ledger holds for a guest and an order id, looked
    up the way the methods do: first entry of the guest, first line of the
    order. *)
Definition ledgerLine (this : BillingService) (g o : Z) : option OrderLine :=
  entry ← find (λ items, guest items = g) (guestOrders this);
  find (λ line, order line = o) (orders entry).

Definition lineOf (ir : ItemRegistration) : OrderLine :=
  {| order := ir_order ir; food := ir_food ir; drinks := ir_drinks ir |}.

(** A ledger with one delivered order and the open bill generated from it. *)
Definition paidScenario : BillingService :=
  set_guestOrders
    [{| guest := 1; orders := [{| order := 1; food := [101; 102]; drinks := [201] |}] |}]
    (set_bills
       [{| bill := 1; bill_guest := 1;
           bill_orders := [{| order := 1; food := [101; 102]; drinks := [201] |}];
           totalSum := 15 |}]
       newBillingService).

(** An id is known when the menu category has an item of that id. *)
Definition knownId (items : list MenuItem) (id : Z) : Prop :=
  is_Some (find (λ item, item_id item = id) items).

Definition knownLine (m : Menu) (o : OrderLine) : Prop :=
  Forall (knownId (menu_drinks m)) (drinks o) ∧ Forall (knownId (menu_food m)) (food o).

(** Price of the menu item of a given id (of the first one, as [find]
    returns it). *)
Definition menuPrice (items : list MenuItem) (id : Z) : float :=
  from_option price 0%float (find (λ item, item_id item = id) items).

Definition linePrices (m : Menu) (o : OrderLine) : list float :=
  (menuPrice (menu_drinks m) <$> drinks o) ++ (menuPrice (menu_food m) <$> food o).

(** The sum of the menu prices of every drink id and every food id across
    the order lines, added up from zero line by line.  Addition of binary64
    numbers is not associative, so the order of the additions is part of
    the definition. *)
Definition priceSum (m : Menu) (os : list OrderLine) : float :=
  foldl PrimFloat.add 0%float (flat_map (linePrices m) os).

(** The open bill of a guest, as [generateBill] looks it up. *)
Definition openBill (this : BillingService) (g : Z) : option Bill :=
  find (λ b, bill_guest b = g) (bills this).

(** At most one ledger entry per guest, at most one order line per order
    id within an entry, at most one open bill per guest. *)
Record ledgerInvariant (this : BillingService) : Prop := {
  inv_guests : NoDup (guest <$> guestOrders this);
  inv_orders : Forall (λ entry, NoDup (order <$> orders entry)) (guestOrders this);
  inv_bills : NoDup (bill_guest <$> bills this)
}.

(** Bill ids are pairwise distinct and below the counter that assigns them. *)
Definition billIdsFresh (this : BillingService) : Prop :=
  NoDup (bill <$> bills this) ∧ Forall (λ b, bill b < billIdCounter this) (bills this).

(** The bill [generateBill] prices when the guest has the open bill [b]. *)
Definition regeneratedFrom (b : Bill) (guestDelivery : GuestOrders) : Bill :=
  {| bill := bill b; bill_guest := bill_guest b;
     bill_orders := foldl addOrder (bill_orders b) (orders guestDelivery);
     totalSum := 0 |}.

(** The bill [generateBill] prices when the guest has no open bill. *)
Definition generatedAnew (this : BillingService) (guestDelivery : GuestOrders) : Bill :=
  {| bill := billIdCounter this; bill_guest := guest guestDelivery;
     bill_orders := foldl addOrder [] (orders guestDelivery);
     totalSum := 0 |}.

(** The menu of the end-to-end scenario. *)
Definition menuOfTheDay : Menu :=
  {| menu_food := [{| item_id := 101; price := 5 |}; {| item_id := 102; price := 7 |}];
     menu_drinks := [{| item_id := 201; price := 3 |}] |}.

(** A fresh service whose precomputed sequence is [seq]. *)
Definition serviceWithSequence (seq : list Z) : BillingService :=
  {| bills := []; guestOrders := []; menu := None; billIdCounter := 1;
     retryCounter := MAX_RETRY_COUNT; fibonacciSeq := seq |}.

(** The service after the first cooldown (and after every later one): the
    counter stands at [MAX_RETRY_COUNT - 1]. *)
Definition serviceAfterCooldown (seq : list Z) : BillingService :=
  set_retryCounter (MAX_RETRY_COUNT - 1) (serviceWithSequence seq).

(** [n] attempts that all fail. *)
Definition failures (n : nat) : list (option Menu) := replicate n None.


(** The ledger line [o] holds what the bill [b] lists for its order id and,
    behind that, what the line [late] lists; a line whose order id is not
    on the bill is late as a whole. *)
Definition lateOf (b : Bill) (o late : OrderLine) : Prop :=
  order late = order o ∧
  match find (λ billOrder, order billOrder = order o) (bill_orders b) with
  | Some billOrder =>
      food o = food billOrder ++ food late ∧ drinks o = drinks billOrder ++ drinks late
  | None => food late = food o ∧ drinks late = drinks o
  end.

(** An order line without items. *)
Definition emptyLine (o : OrderLine) : Prop := food o = [] ∧ drinks o = [].

#[global] Instance emptyLine_dec o : Decision (emptyLine o).
Proof. unfold emptyLine. apply _. Defined.

(** The amount 20, as the specification of binary64 numbers writes it:
    5629499534213120 * 2^-48. *)
Definition twenty : spec_float := S754_finite false 5629499534213120 (-48).

(** A service in the middle of an evening: guest 1 has two delivered
    orders and an open bill for the first of them, guest 2 has one
    delivered order and an open bill for it; the menu is loaded and bill ids
    1 and 2 are taken. *)
Definition busyService : BillingService :=
  {| bills :=
       [{| bill := 1; bill_guest := 1;
           bill_orders := [{| order := 1; food := [101; 102]; drinks := [201] |}];
           totalSum := 15 |};
        {| bill := 2; bill_guest := 2;
           bill_orders := [{| order := 2; food := [102]; drinks := [] |}];
           totalSum := 7 |}];
     guestOrders :=
       [{| guest := 1;
           orders := [{| order := 1; food := [101; 102]; drinks := [201] |};
                      {| order := 3; food := [101]; drinks := [] |}] |};
        {| guest := 2; orders := [{| order := 2; food := [102]; drinks := [] |}] |}];
     menu := Some menuOfTheDay;
     billIdCounter := 3;
     retryCounter := MAX_RETRY_COUNT;
     fibonacciSeq := getFibonacciSequence MAX_RETRY_COUNT |}.

(** * Properties *)

(** ** Arrays *)

Section ArrayFacts.
Context {A : Type}.
Implicit Types (l : list A) (P : A → Prop).

Lemma at_index_of_nat l (i : nat) : at_index l (Z.of_nat i) = l !! i.
Proof.
  unfold at_index. destruct (decide (0 ≤ Z.of_nat i)); [|lia].
  by rewrite Nat2Z.id.
Qed.

Lemma at_index_neg l i : i < 0 → at_index l i = None.
Proof. intros Hi. unfold at_index. destruct (decide (0 ≤ i)); [lia|done]. Qed.

Lemma findIndex_Some P `{∀ x, Decision (P x)} l i x :
  list_find P l = Some (i, x) → findIndex P l = Z.of_nat i.
Proof. unfold findIndex. by intros ->. Qed.

Lemma findIndex_None P `{∀ x, Decision (P x)} l :
  list_find P l = None → findIndex P l = -1.
Proof. unfold findIndex. by intros ->. Qed.

Lemma at_findIndex_Some P `{∀ x, Decision (P x)} l i x :
  list_find P l = Some (i, x) → at_index l (findIndex P l) = Some x.
Proof.
  intros Hf. rewrite (findIndex_Some _ _ _ _ Hf), at_index_of_nat.
  by apply list_find_Some in Hf as (? & _).
Qed.

Lemma at_findIndex_None P `{∀ x, Decision (P x)} l :
  list_find P l = None → at_index l (findIndex P l) = None.
Proof. intros Hf. rewrite (findIndex_None _ _ Hf). by apply at_index_neg. Qed.

Lemma splice_replace l (i : nat) x :
  (i < length l)%nat → splice (Z.of_nat i) 1 [x] l = <[i := x]> l.
Proof.
  intros Hi. unfold splice.
  destruct (decide (Z.of_nat i < 0)) as [?|_]; [lia|].
  rewrite Z.min_l by lia. rewrite Nat2Z.id.
  revert i Hi. induction l as [|y l IH]; intros [|i] Hi; simpl in *; try lia.
  - by rewrite drop_0.
  - f_equal. apply IH. lia.
Qed.

Lemma splice_delete l (i : nat) :
  (i < length l)%nat → splice (Z.of_nat i) 1 [] l = delete i l.
Proof.
  intros Hi. unfold splice.
  destruct (decide (Z.of_nat i < 0)) as [?|_]; [lia|].
  rewrite Z.min_l by lia. rewrite Nat2Z.id.
  revert i Hi. induction l as [|y l IH]; intros [|i] Hi; simpl in *; try lia.
  - by rewrite drop_0.
  - f_equal. apply IH. lia.
Qed.

Lemma update_at_of_nat (i : nat) (f : A → A) l :
  update_at (Z.of_nat i) f l = alter f i l.
Proof.
  unfold update_at. destruct (decide (0 ≤ Z.of_nat i)); [|lia].
  by rewrite Nat2Z.id.
Qed.
End ArrayFacts.

(** ** Comparison of an amount with 20 *)

Lemma compare_cont_flip (m n : positive) :
  Pos.compare_cont Eq n m = CompOpp (Pos.compare_cont Eq m n).
Proof. by rewrite Pos.compare_cont_antisym. Qed.

Lemma float_not_lt_20 (amount : float) :
  (20 <=? amount)%float = true → (amount <? 20)%float = false.
Proof.
  rewrite leb_spec, ltb_spec.
  replace (Prim2SF 20) with (S754_finite false 5629499534213120 (-48))
    by (vm_compute; reflexivity).
  unfold SFleb, SFltb.
  destruct (Prim2SF amount) as [s|s| |s m e]; cbn [SFcompare].
  - discriminate.
  - destruct s; [discriminate|reflexivity].
  - reflexivity.
  - destruct s; [discriminate|].
    rewrite (Z.compare_antisym (-48) e).
    rewrite (compare_cont_flip 5629499534213120 m).
    destruct (-48 ?= e), (Pos.compare_cont Eq 5629499534213120 m);
      cbv [CompOpp]; congruence.
Qed.

(** C10: [getPaymentOption] always offers cash; below 20 it offers cash
    only, from 20 on it offers cash, debit card and credit card in that
    order; in particular at 19.99 and at 20. *)
Theorem getPaymentOption_policy :
  (∀ amount, Cash ∈ getPaymentOption amount) ∧
  (∀ amount, (amount <? 20)%float = true → getPaymentOption amount = [Cash]) ∧
  (∀ amount, (20 <=? amount)%float = true →
     getPaymentOption amount = [Cash; DebitCard; CreditCard]) ∧
  getPaymentOption 19.99 = [Cash] ∧
  getPaymentOption 20 = [Cash; DebitCard; CreditCard].
Proof.
  unfold getPaymentOption. split_and!.
  - intros amount. destruct (amount <? 20)%float; constructor.
  - by intros amount ->.
  - intros amount Hge. by rewrite (float_not_lt_20 _ Hge).
  - reflexivity.
  - reflexivity.
Qed.

(** The policy applied at concrete amounts, among them an amount that is
    not a number, which the comparison sends to the three-method answer. *)
Lemma getPaymentOption_policy_witness :
  getPaymentOption 7.5 = [Cash] ∧
  getPaymentOption 45 = [Cash; DebitCard; CreditCard] ∧
  getPaymentOption nan = [Cash; DebitCard; CreditCard].
Proof.
  destruct getPaymentOption_policy as (_ & Hlt & Hge & _).
  split_and!.
  - apply Hlt. reflexivity.
  - apply Hge. reflexivity.
  - reflexivity.
Defined.

(** ** Searching an array after an element was updated in place *)

Section FindFacts.
Context {A : Type} (P : A → Prop) `{!∀ x, Decision (P x)}.
Implicit Types l : list A.

Lemma list_find_insert_hit l i x x' :
  list_find P l = Some (i, x) → P x' →
  list_find P (<[i := x']> l) = Some (i, x').
Proof.
  intros (Hl & HP & Hleast)%list_find_Some HP'. apply list_find_Some.
  split_and!; [|done|].
  - rewrite list_lookup_insert_eq; [done|]. by eapply lookup_lt_Some.
  - intros j y Hj Hlt. rewrite list_lookup_insert_ne in Hj by lia. eauto.
Qed.

Lemma list_find_insert_miss l i x x' :
  l !! i = Some x → ¬ P x → ¬ P x' →
  list_find P (<[i := x']> l) = list_find P l.
Proof.
  revert i. induction l as [|y l IH]; intros [|i] Hl Hx Hx'; simplify_eq/=.
  - by rewrite !decide_False.
  - case_decide; [done|]. by rewrite (IH i).
Qed.

Lemma list_find_snoc_None l x :
  list_find P l = None → ¬ P x → list_find P (l ++ [x]) = None.
Proof.
  intros Hl Hx. apply list_find_app_None. split; [done|].
  simpl. by rewrite decide_False.
Qed.

Lemma list_find_snoc_new l x :
  list_find P l = None → P x → list_find P (l ++ [x]) = Some (length l, x).
Proof.
  intros Hl Hx. rewrite list_find_app_r by done. simpl.
  rewrite decide_True by done. done.
Qed.

Lemma list_find_lt l i x : list_find P l = Some (i, x) → (i < length l)%nat.
Proof. intros (Hl & _)%list_find_Some. by eapply lookup_lt_Some. Qed.

Lemma find_Some_inv l x : find P l = Some x → ∃ i, list_find P l = Some (i, x).
Proof.
  unfold find. destruct (list_find P l) as [[i y]|]; simpl; [|done].
  intros [= ->]. eauto.
Qed.

Lemma find_of_list_find l i x : list_find P l = Some (i, x) → find P l = Some x.
Proof. unfold find. by intros ->. Qed.

Lemma find_None_of_list_find l : list_find P l = None → find P l = None.
Proof. unfold find. by intros ->. Qed.

Lemma find_insert_hit l i x x' :
  list_find P l = Some (i, x) → P x' → find P (<[i := x']> l) = Some x'.
Proof. intros Hf Hx'. eapply find_of_list_find. by eapply list_find_insert_hit. Qed.

Lemma find_insert_miss l i x x' :
  l !! i = Some x → ¬ P x → ¬ P x' → find P (<[i := x']> l) = find P l.
Proof. intros Hl Hx Hx'. unfold find. by erewrite list_find_insert_miss. Qed.

Lemma find_snoc_miss l x : ¬ P x → find P (l ++ [x]) = find P l.
Proof.
  intros Hx. unfold find. destruct (list_find P l) as [[i y]|] eqn:Hf.
  - by erewrite list_find_app_l.
  - by rewrite list_find_snoc_None.
Qed.
End FindFacts.

(** ** The delivery ledger *)

Lemma registerDeliveredItems_other_fields ir this :
  bills (registerDeliveredItems ir this) = bills this ∧
  menu (registerDeliveredItems ir this) = menu this ∧
  billIdCounter (registerDeliveredItems ir this) = billIdCounter this.
Proof.
  unfold registerDeliveredItems.
  destruct (list_find _ (guestOrders this)) as [[gi e]|]; [|done].
  by destruct (list_find _ (orders e)) as [[oi o]|].
Qed.

(** A delivery changes the ledger line of its guest and order only. *)
Lemma registerDeliveredItems_frame ir this g o :
  (g, o) ≠ (ir_guest ir, ir_order ir) →
  ledgerLine (registerDeliveredItems ir this) g o = ledgerLine this g o.
Proof.
  intros Hother. unfold registerDeliveredItems, ledgerLine.
  destruct (list_find (λ items, guest items = ir_guest ir) (guestOrders this))
    as [[gi entry]|] eqn:Hg.
  - pose proof Hg as (Hgl & Hgp & _)%list_find_Some.
    destruct (decide (g = ir_guest ir)) as [->|Hguest].
    + assert (o ≠ ir_order ir) as Horder by congruence.
      rewrite (find_of_list_find _ _ _ _ Hg).
      destruct (list_find (λ deliveryOrder, order deliveryOrder = ir_order ir)
                  (orders entry)) as [[oi line]|] eqn:Ho;
        cbn [guestOrders set_guestOrders];
        erewrite find_insert_hit by done; simpl.
      * pose proof Ho as (Hol & Hop & _)%list_find_Some.
        apply (find_insert_miss _ _ _ line); [done|congruence|simpl; congruence].
      * apply find_snoc_miss. simpl. congruence.
    + destruct (list_find (λ deliveryOrder, order deliveryOrder = ir_order ir)
                  (orders entry)) as [[oi line]|];
        cbn [guestOrders set_guestOrders];
        rewrite (find_insert_miss _ _ _ entry) by (done || (simpl; congruence));
        done.
  - cbn [guestOrders set_guestOrders].
    destruct (decide (g = ir_guest ir)) as [->|Hguest].
    + assert (o ≠ ir_order ir) as Horder by congruence.
      rewrite (find_None_of_list_find _ _ Hg).
      erewrite find_of_list_find by (by apply list_find_snoc_new).
      simpl. unfold find. simpl. rewrite decide_False by congruence. done.
    + rewrite find_snoc_miss; [done|]. simpl. congruence.
Qed.

(** C6: [registerDeliveredItems] creates the guest's entry with the single
    delivered line when the guest has none; appends a new line when the
    entry has no line of that order; otherwise appends the delivered food
    and drinks to the lists of the existing line, keeping what was there;
    no other line of the ledger changes; delivering food 101 twice for
    guest 2, order 5 leaves the list 101, 101 on that line. *)
Theorem registerDeliveredItems_cases :
  (∀ ir this,
     find (λ items, guest items = ir_guest ir) (guestOrders this) = None →
     guestOrders (registerDeliveredItems ir this)
       = guestOrders this ++ [{| guest := ir_guest ir; orders := [lineOf ir] |}]) ∧
  (∀ ir this gi entry,
     list_find (λ items, guest items = ir_guest ir) (guestOrders this) = Some (gi, entry) →
     find (λ line, order line = ir_order ir) (orders entry) = None →
     guestOrders (registerDeliveredItems ir this)
       = <[gi := {| guest := guest entry; orders := orders entry ++ [lineOf ir] |}]>
           (guestOrders this) ∧
     ledgerLine (registerDeliveredItems ir this) (ir_guest ir) (ir_order ir)
       = Some (lineOf ir)) ∧
  (∀ ir this line,
     ledgerLine this (ir_guest ir) (ir_order ir) = Some line →
     ledgerLine (registerDeliveredItems ir this) (ir_guest ir) (ir_order ir)
       = Some {| order := ir_order ir;
                 food := food line ++ ir_food ir;
                 drinks := drinks line ++ ir_drinks ir |} ∧
     length (guestOrders (registerDeliveredItems ir this)) = length (guestOrders this) ∧
     (guest <$> guestOrders (registerDeliveredItems ir this)) = (guest <$> guestOrders this)) ∧
  (∀ ir this g o,
     (g, o) ≠ (ir_guest ir, ir_order ir) →
     ledgerLine (registerDeliveredItems ir this) g o = ledgerLine this g o) ∧
  (let delivery := {| ir_guest := 2; ir_order := 5; ir_food := [101]; ir_drinks := [] |} in
   guestOrders (registerDeliveredItems delivery (registerDeliveredItems delivery newBillingService))
     = [{| guest := 2; orders := [{| order := 5; food := [101; 101]; drinks := [] |}] |}]).
Proof.
  split_and!.
  - intros ir this Hg. unfold registerDeliveredItems, find in *.
    destruct (list_find _ (guestOrders this)) as [[gi e]|]; [done|]. done.
  - intros ir this gi entry Hg Ho. unfold registerDeliveredItems, ledgerLine.
    rewrite Hg. unfold find in Ho.
    destruct (list_find _ (orders entry)) as [[oi o]|] eqn:Hfo; [done|].
    simpl. split; [done|].
    erewrite find_of_list_find; last first.
    { eapply list_find_insert_hit; [done|]. simpl.
      by apply list_find_Some in Hg as (_ & ? & _). }
    simpl. eapply find_of_list_find. by apply list_find_snoc_new.
  - intros ir this line Hl. unfold ledgerLine in Hl.
    destruct (find _ (guestOrders this)) as [entry|] eqn:Hg; [|done]. simpl in Hl.
    apply find_Some_inv in Hg as [gi Hg]. apply find_Some_inv in Hl as [oi Ho].
    pose proof Hg as (Hgl & Hgp & _)%list_find_Some.
    pose proof Ho as (Hol & Hop & _)%list_find_Some.
    unfold registerDeliveredItems, ledgerLine. rewrite Hg, Ho. simpl.
    split_and!.
    + erewrite find_of_list_find; last by eapply list_find_insert_hit.
      simpl. erewrite find_of_list_find; last by eapply list_find_insert_hit.
      by rewrite Hop.
    + by rewrite length_insert.
    + rewrite list_fmap_insert. simpl. apply list_insert_id.
      by rewrite list_lookup_fmap, Hgl.
  - apply registerDeliveredItems_frame.
  - reflexivity.
Qed.

(** The three cases of a delivery on a concrete ledger. *)
Lemma registerDeliveredItems_cases_witness :
  let first := {| ir_guest := 1; ir_order := 1; ir_food := [101; 102]; ir_drinks := [201] |} in
  let second := {| ir_guest := 1; ir_order := 2; ir_food := [103]; ir_drinks := [] |} in
  let s1 := registerDeliveredItems first newBillingService in
  let s2 := registerDeliveredItems second s1 in
  guestOrders s1 = [{| guest := 1; orders := [lineOf first] |}] ∧
  ledgerLine s2 1 2 = Some (lineOf second) ∧
  ledgerLine (registerDeliveredItems first s2) 1 1
    = Some {| order := 1; food := [101; 102; 101; 102]; drinks := [201; 201] |} ∧
  ledgerLine (registerDeliveredItems first s2) 1 2 = ledgerLine s2 1 2.
Proof.
  intros first second s1 s2.
  destruct registerDeliveredItems_cases as (Hnew & Hline & Hmerge & Hframe & _).
  split_and!.
  - apply (Hnew first newBillingService). reflexivity.
  - apply (Hline second s1 0%nat {| guest := 1; orders := [lineOf first] |});
      reflexivity.
  - apply (Hmerge first s2 (lineOf first)). reflexivity.
  - apply (Hframe first s2 1 2). discriminate.
Defined.

(** ** Settlement of a payment *)

Lemma removeOccurrence_delete (l : list Z) (x : Z) i :
  list_find (λ y, x = y) l = Some (i, x) → removeOccurrence l x = delete i l.
Proof.
  intros Hf. unfold removeOccurrence, includes.
  pose proof Hf as (Hl & _)%list_find_Some.
  rewrite bool_decide_eq_true_2 by (by eapply list_elem_of_lookup_2).
  rewrite (findIndex_Some _ _ _ _ Hf). apply splice_delete.
  by eapply lookup_lt_Some.
Qed.

Lemma removeOccurrence_absent (l : list Z) (x : Z) : x ∉ l → removeOccurrence l x = l.
Proof.
  intros Hx. unfold removeOccurrence, includes.
  by rewrite bool_decide_eq_false_2.
Qed.

Lemma removeOccurrence_find (l : list Z) (x : Z) :
  x ∈ l → ∃ i, list_find (λ y, x = y) l = Some (i, x).
Proof.
  intros Hx. destruct (list_find_elem_of (λ y, x = y) l x Hx eq_refl) as [[i y] Hf].
  pose proof Hf as (_ & <- & _)%list_find_Some. eauto.
Qed.

(** Removing an occurrence is multiset subtraction of a singleton. *)
Lemma removeOccurrence_multiset (l : list Z) (x : Z) :
  list_to_set_disj (removeOccurrence l x) =@{gmultiset Z} list_to_set_disj l ∖ {[+ x +]}.
Proof.
  destruct (decide (x ∈ l)) as [Hx|Hx].
  - destruct (removeOccurrence_find _ _ Hx) as [i Hf].
    rewrite (removeOccurrence_delete _ _ _ Hf).
    apply list_find_Some in Hf as (Hl & _).
    rewrite (delete_Permutation _ _ _ Hl) at 2.
    rewrite list_to_set_disj_cons. multiset_solver.
  - rewrite removeOccurrence_absent by done.
    assert (x ∉ list_to_set_disj (C := gmultiset Z) l)
      by (by rewrite elem_of_list_to_set_disj).
    multiset_solver.
Qed.

Lemma removeOccurrence_sublist (l : list Z) (x : Z) : removeOccurrence l x `sublist_of` l.
Proof.
  destruct (decide (x ∈ l)) as [Hx|Hx].
  - destruct (removeOccurrence_find _ _ Hx) as [i Hf].
    rewrite (removeOccurrence_delete _ _ _ Hf). apply sublist_delete.
  - by rewrite removeOccurrence_absent.
Qed.

Lemma foldl_removeOccurrence_multiset (billed l : list Z) :
  list_to_set_disj (foldl removeOccurrence l billed)
    =@{gmultiset Z} list_to_set_disj l ∖ list_to_set_disj billed.
Proof.
  revert l. induction billed as [|x billed IH]; intros l; simpl.
  - multiset_solver.
  - rewrite IH, removeOccurrence_multiset. multiset_solver.
Qed.

Lemma foldl_removeOccurrence_sublist (billed l : list Z) :
  foldl removeOccurrence l billed `sublist_of` l.
Proof.
  revert l. induction billed as [|x billed IH]; intros l; simpl; [done|].
  etrans; [apply IH|apply removeOccurrence_sublist].
Qed.

Lemma removeBilledItems_order b o : order (removeBilledItems b o) = order o.
Proof. unfold removeBilledItems. by destruct (find _ (bill_orders b)). Qed.

Lemma alter_alter_insert {A} (f g : A → A) (l : list A) i x :
  l !! i = Some x → alter f i (alter g i l) = <[i := f (g x)]> l.
Proof.
  intros Hl. rewrite list_alter_alter_eq, list_insert_alter.
  apply list_alter_ext; [|done]. intros y Hy. by simplify_eq/=.
Qed.

(** What a payment does when the bill and the ledger entry of its guest
    are there. *)
Lemma registerPayment_found this billId bi b gi entry :
  list_find (λ b', bill b' = billId) (bills this) = Some (bi, b) →
  list_find (λ items, guest items = bill_guest b) (guestOrders this) = Some (gi, entry) →
  registerPayment billId this =
    Return {| pb_bill := billId; paidOrders := paidOrderOf <$> bill_orders b;
              pb_totalSum := totalSum b |}
      (set_bills (delete bi (bills this))
         (set_guestOrders
            (<[gi := {| guest := guest entry;
                        orders := filter nonEmptyLine (removeBilledItems b <$> orders entry) |}]>
               (guestOrders this))
            this)).
Proof.
  intros Hb Hg. unfold registerPayment.
  rewrite (at_findIndex_Some _ _ _ _ Hb).
  unfold removeBillItemsFromDeliveredItems.
  rewrite (at_findIndex_Some _ _ _ _ Hg), (findIndex_Some _ _ _ _ Hg).
  pose proof Hg as (Hgl & _)%list_find_Some.
  pose proof (list_find_lt _ _ _ _ Hb) as Hbi.
  cbn [guestOrders set_guestOrders bills].
  rewrite !update_at_of_nat, at_index_of_nat, list_lookup_alter_eq, Hgl.
  cbn [fmap option_fmap option_map].
  rewrite (alter_alter_insert _ _ _ _ _ Hgl).
  rewrite (findIndex_Some _ _ _ _ Hb), splice_delete by done.
  reflexivity.
Qed.

Lemma registerPayment_no_bill this billId :
  list_find (λ b', bill b' = billId) (bills this) = None →
  registerPayment billId this = Throw TypeError this.
Proof.
  intros Hb. unfold registerPayment. by rewrite (at_findIndex_None _ _ Hb).
Qed.

Lemma registerPayment_no_guest this billId bi b :
  list_find (λ b', bill b' = billId) (bills this) = Some (bi, b) →
  list_find (λ items, guest items = bill_guest b) (guestOrders this) = None →
  registerPayment billId this = Throw TypeError this.
Proof.
  intros Hb Hg. unfold registerPayment.
  rewrite (at_findIndex_Some _ _ _ _ Hb).
  unfold removeBillItemsFromDeliveredItems.
  by rewrite (at_findIndex_None _ _ Hg).
Qed.

(** C1: paying an open bill [b] subtracts, on every ledger line of the
    guest, the multiset of billed food ids and of billed drink ids of the
    bill line with the same order id from the line's lists (one occurrence
    per billed id, the remaining ids keep their order, lines without a bill
    line are untouched); afterwards the guest's order list holds exactly the
    resulting lines that are not empty. *)
Theorem registerPayment_multiset_settlement this billId bi b gi entry :
  list_find (λ b', bill b' = billId) (bills this) = Some (bi, b) →
  list_find (λ items, guest items = bill_guest b) (guestOrders this) = Some (gi, entry) →
  ∃ paid this' entry',
    registerPayment billId this = Return paid this' ∧
    list_find (λ items, guest items = bill_guest b) (guestOrders this') = Some (gi, entry') ∧
    orders entry' = filter nonEmptyLine (removeBilledItems b <$> orders entry) ∧
    (∀ o, o ∈ orders entry →
       order (removeBilledItems b o) = order o ∧
       match find (λ billOrder, order billOrder = order o) (bill_orders b) with
       | Some billOrder =>
           list_to_set_disj (food (removeBilledItems b o))
             =@{gmultiset Z} list_to_set_disj (food o) ∖ list_to_set_disj (food billOrder) ∧
           list_to_set_disj (drinks (removeBilledItems b o))
             =@{gmultiset Z} list_to_set_disj (drinks o) ∖ list_to_set_disj (drinks billOrder) ∧
           food (removeBilledItems b o) `sublist_of` food o ∧
           drinks (removeBilledItems b o) `sublist_of` drinks o
       | None => removeBilledItems b o = o
       end) ∧
    (∀ o', o' ∈ orders entry' → food o' ≠ [] ∨ drinks o' ≠ []) ∧
    (∀ o, o ∈ orders entry →
       food (removeBilledItems b o) ≠ [] ∨ drinks (removeBilledItems b o) ≠ [] →
       removeBilledItems b o ∈ orders entry').
Proof.
  intros Hb Hg. eexists _, _, _.
  split; [by apply registerPayment_found|].
  split.
  { cbn [guestOrders set_bills set_guestOrders].
    eapply list_find_insert_hit; [done|]. simpl.
    by apply list_find_Some in Hg as (_ & ? & _). }
  split; [done|]. split_and!.
  - intros o _. split; [apply removeBilledItems_order|].
    unfold removeBilledItems.
    destruct (find _ (bill_orders b)) as [billOrder|]; [|done]. simpl.
    split_and!; auto using foldl_removeOccurrence_multiset,
      foldl_removeOccurrence_sublist.
  - intros o' Ho'. simpl in Ho'. by apply list_elem_of_filter in Ho' as [? _].
  - intros o Ho Hne. simpl. apply list_elem_of_filter. split; [done|].
    by apply list_elem_of_fmap_2.
Qed.

(** A bill for one plate 101 and one drink 201 of order 1, paid against a
    ledger that holds plate 101 twice on order 1 and an empty order 2. *)
Lemma registerPayment_multiset_settlement_witness :
  let b := {| bill := 1; bill_guest := 1;
              bill_orders := [{| order := 1; food := [101]; drinks := [201] |}];
              totalSum := 8 |} in
  let entry := {| guest := 1;
                  orders := [{| order := 1; food := [101; 101]; drinks := [201] |};
                             {| order := 2; food := []; drinks := [] |}] |} in
  let this := set_guestOrders [entry] (set_bills [b] newBillingService) in
  ∃ paid this' entry',
    registerPayment 1 this = Return paid this' ∧
    list_find (λ items, guest items = 1) (guestOrders this') = Some (0%nat, entry') ∧
    orders entry' = [{| order := 1; food := [101]; drinks := [] |}].
Proof.
  intros b entry this.
  destruct (registerPayment_multiset_settlement this 1 0%nat b 0%nat entry
              eq_refl eq_refl)
    as (paid & this' & entry' & Hpay & Hfind & Horders & _).
  exists paid, this', entry'. split_and!; [done|done|].
  rewrite Horders. reflexivity.
Defined.

(** Bill ids that are pairwise distinct stay so when a bill is removed, and
    the removed id is then gone. *)
Lemma list_find_delete_None {A} (key : A → Z) (l : list A) i x :
  NoDup (key <$> l) → l !! i = Some x →
  list_find (λ y, key y = key x) (delete i l) = None.
Proof.
  intros Hnd Hl. apply list_find_None, Forall_lookup. intros j y Hj Hkey.
  assert (∃ j', j' ≠ i ∧ l !! j' = Some y) as (j' & Hne & Hj').
  { destruct (decide (j < i)%nat).
    - exists j. split; [lia|]. by rewrite list_lookup_delete_lt in Hj.
    - exists (S j). split; [lia|]. by rewrite list_lookup_delete_ge in Hj by lia. }
  apply Hne. eapply (NoDup_lookup (key <$> l)); [done| |].
  - by rewrite list_lookup_fmap, Hj'.
  - by rewrite list_lookup_fmap, Hl, Hkey.
Qed.

(** C4 (as the code has it): a payment for a bill id that no open bill
    carries throws the runtime's TypeError of a read on [undefined], and so
    does a payment whose bill names a guest without ledger entry; both leave
    every field as it was.  A bill is deleted on payment, so with distinct
    bill ids a second payment of the same id throws that TypeError too. *)
Theorem registerPayment_missing_throws_TypeError :
  (∀ this billId,
     list_find (λ b, bill b = billId) (bills this) = None →
     registerPayment billId this = Throw TypeError this) ∧
  (∀ this billId bi b,
     list_find (λ b', bill b' = billId) (bills this) = Some (bi, b) →
     list_find (λ items, guest items = bill_guest b) (guestOrders this) = None →
     registerPayment billId this = Throw TypeError this) ∧
  (∀ this billId paid this',
     NoDup (bill <$> bills this) →
     registerPayment billId this = Return paid this' →
     registerPayment billId this' = Throw TypeError this').
Proof.
  split_and!.
  - apply registerPayment_no_bill.
  - apply registerPayment_no_guest.
  - intros this billId paid this' Hnd Hpay.
    destruct (list_find (λ b, bill b = billId) (bills this)) as [[bi b]|] eqn:Hb;
      [|by rewrite registerPayment_no_bill in Hpay].
    destruct (list_find (λ items, guest items = bill_guest b) (guestOrders this))
      as [[gi entry]|] eqn:Hg;
      [|by rewrite (registerPayment_no_guest _ _ _ _ Hb Hg) in Hpay].
    rewrite (registerPayment_found _ _ _ _ _ _ Hb Hg) in Hpay.
    injection Hpay as _ <-.
    apply registerPayment_no_bill. cbn [bills set_bills].
    apply list_find_Some in Hb as (Hl & <- & _).
    by apply (list_find_delete_None bill).
Qed.

(** The three failing payments on concrete states: an unknown bill id, a
    bill whose guest has no ledger entry, and a bill paid twice. *)
Lemma registerPayment_missing_throws_TypeError_witness :
  registerPayment 7 paidScenario = Throw TypeError paidScenario ∧
  registerPayment 1 (set_guestOrders [] paidScenario)
    = Throw TypeError (set_guestOrders [] paidScenario) ∧
  registerPayment 1 (final_state (registerPayment 1 paidScenario))
    = Throw TypeError (final_state (registerPayment 1 paidScenario)).
Proof.
  destruct registerPayment_missing_throws_TypeError as (Hbill & Hguest & Hagain).
  split_and!.
  - apply Hbill. reflexivity.
  - eapply Hguest; reflexivity.
  - eapply (Hagain paidScenario 1).
    + apply (NoDup_singleton (1 : Z)).
    + reflexivity.
Defined.

(** C4 (as stated) fails: on a service without bills, paying bill 1 does not
    fail with BillNotFound; the call dies of the TypeError raised by reading
    [orders] of [undefined]. *)
Lemma registerPayment_BillNotFound_counterexample :
  list_find (λ b, bill b = 1) (bills newBillingService) = None ∧
  registerPayment 1 newBillingService = Throw TypeError newBillingService ∧
  ¬ (∃ this', registerPayment 1 newBillingService = Throw (Explicit BillNotFound) this').
Proof.
  split_and!; [reflexivity..|]. intros [this' H]. discriminate H.
Qed.

(** ** Order lines of a regenerated bill *)

Lemma copyLine_id o : copyLine o = o.
Proof. by destruct o. Qed.

Lemma copyLine_fmap (os : list OrderLine) : copyLine <$> os = os.
Proof.
  induction os as [|o os IH]; csimpl; [done|]. by rewrite copyLine_id, IH.
Qed.

(** [addOrder] overwrites the first line of the same order id with the
    delivered line, or appends the delivered line. *)
Lemma addOrder_alt (l : list OrderLine) (o : OrderLine) :
  addOrder l o =
    match list_find (λ billOrder, order billOrder = order o) l with
    | Some (i, _) => <[i := o]> l
    | None => l ++ [o]
    end.
Proof.
  unfold addOrder.
  destruct (list_find _ l) as [[i existing]|] eqn:Hf.
  - apply list_find_Some in Hf as (_ & Hk & _). rewrite Hk. by destruct o.
  - by destruct o.
Qed.

Lemma addOrder_hit l o i x :
  list_find (λ billOrder, order billOrder = order o) l = Some (i, x) →
  addOrder l o = <[i := o]> l.
Proof. intros Hf. by rewrite addOrder_alt, Hf. Qed.

Lemma addOrder_miss l o :
  list_find (λ billOrder, order billOrder = order o) l = None →
  addOrder l o = l ++ [o].
Proof. intros Hf. by rewrite addOrder_alt, Hf. Qed.

Lemma list_find_order_is_Some (l : list OrderLine) k :
  k ∈ order <$> l → ∃ i x, list_find (λ billOrder, order billOrder = k) l = Some (i, x).
Proof.
  intros (x & -> & Hx)%list_elem_of_fmap.
  destruct (list_find_elem_of (λ billOrder, order billOrder = order x) l x Hx eq_refl)
    as [[i y] Hf].
  eauto.
Qed.

Lemma list_find_order_None (l : list OrderLine) k :
  list_find (λ billOrder, order billOrder = k) l = None → k ∉ order <$> l.
Proof.
  intros Hf (x & -> & Hx)%list_elem_of_fmap.
  rewrite list_find_None, Forall_lookup in Hf.
  apply list_elem_of_lookup_1 in Hx as [i Hi]. exact (Hf i x Hi eq_refl).
Qed.

(** The order ids of a bill only grow, and in place. *)
Lemma addOrder_ids l o :
  order <$> addOrder l o =
    if decide (order o ∈ order <$> l) then order <$> l else (order <$> l) ++ [order o].
Proof.
  destruct (list_find (λ billOrder, order billOrder = order o) l) as [[i x]|] eqn:Hf.
  - rewrite (addOrder_hit _ _ _ _ Hf).
    pose proof Hf as (Hl & Hk & _)%list_find_Some.
    rewrite decide_True by (apply list_elem_of_fmap; eauto using list_elem_of_lookup_2).
    rewrite list_fmap_insert. apply list_insert_id.
    by rewrite list_lookup_fmap, Hl, <- Hk.
  - rewrite (addOrder_miss _ _ Hf).
    rewrite decide_False by (by apply list_find_order_None).
    by rewrite fmap_app.
Qed.

Lemma addOrder_ids_mono l o k : k ∈ order <$> l → k ∈ order <$> addOrder l o.
Proof.
  intros Hk. rewrite addOrder_ids. case_decide; [done|].
  apply elem_of_app. by left.
Qed.

Lemma addOrder_ids_new l o : order o ∈ order <$> addOrder l o.
Proof.
  rewrite addOrder_ids. case_decide; [done|].
  apply elem_of_app. right. by apply list_elem_of_singleton.
Qed.

Lemma foldl_addOrder_ids_mono new l k :
  k ∈ order <$> l → k ∈ order <$> foldl addOrder l new.
Proof.
  revert l. induction new as [|o new IH]; intros l Hk; simpl; [done|].
  by apply IH, addOrder_ids_mono.
Qed.

Lemma foldl_addOrder_ids_new new l o :
  o ∈ new → order o ∈ order <$> foldl addOrder l new.
Proof.
  revert l. induction new as [|o' new IH]; intros l Ho; simpl.
  - by apply elem_of_nil in Ho.
  - apply elem_of_cons in Ho as [->|Ho]; [|by apply IH].
    apply foldl_addOrder_ids_mono, addOrder_ids_new.
Qed.

(** Two deliveries of the same order id: the later one wins. *)
Lemma addOrder_absorb l o1 o2 :
  order o1 = order o2 → addOrder (addOrder l o1) o2 = addOrder l o2.
Proof.
  intros Hk.
  destruct (list_find (λ billOrder, order billOrder = order o1) l) as [[i x]|] eqn:Hf.
  - rewrite (addOrder_hit _ _ _ _ Hf).
    assert (list_find (λ billOrder, order billOrder = order o2) (<[i := o1]> l)
              = Some (i, o1)) as Hf2.
    { rewrite <- Hk. by eapply list_find_insert_hit. }
    rewrite (addOrder_hit _ _ _ _ Hf2). rewrite Hk in Hf.
    rewrite (addOrder_hit _ _ _ _ Hf). by rewrite list_insert_insert_eq.
  - rewrite (addOrder_miss _ _ Hf).
    assert (list_find (λ billOrder, order billOrder = order o2) (l ++ [o1])
              = Some (length l, o1)) as Hf2.
    { rewrite <- Hk. by apply list_find_snoc_new. }
    rewrite (addOrder_hit _ _ _ _ Hf2). rewrite Hk in Hf.
    rewrite (addOrder_miss _ _ Hf).
    rewrite insert_app_r_alt, Nat.sub_diag by lia. done.
Qed.

(** Deliveries of different order ids commute once the first one has its
    line on the bill. *)
Lemma addOrder_comm l o1 o2 :
  order o1 ≠ order o2 → order o1 ∈ order <$> l →
  addOrder (addOrder l o2) o1 = addOrder (addOrder l o1) o2.
Proof.
  intros Hne Hin.
  destruct (list_find_order_is_Some _ _ Hin) as (i1 & x1 & Hf1).
  pose proof Hf1 as (Hl1 & Hk1 & _)%list_find_Some.
  rewrite (addOrder_hit _ _ _ _ Hf1).
  destruct (list_find (λ billOrder, order billOrder = order o2) l) as [[i2 x2]|] eqn:Hf2.
  - pose proof Hf2 as (Hl2 & Hk2 & _)%list_find_Some.
    assert (i1 ≠ i2) by (intros ->; congruence).
    rewrite (addOrder_hit _ _ _ _ Hf2).
    assert (list_find (λ billOrder, order billOrder = order o1) (<[i2 := o2]> l)
              = Some (i1, x1)) as ->%addOrder_hit.
    { rewrite (list_find_insert_miss _ _ _ x2); [done..|congruence|congruence]. }
    assert (list_find (λ billOrder, order billOrder = order o2) (<[i1 := o1]> l)
              = Some (i2, x2)) as ->%addOrder_hit.
    { rewrite (list_find_insert_miss _ _ _ x1); [done..|congruence|congruence]. }
    by apply list_insert_insert_ne.
  - rewrite (addOrder_miss _ _ Hf2).
    assert (list_find (λ billOrder, order billOrder = order o1) (l ++ [o2])
              = Some (i1, x1)) as ->%addOrder_hit by (by apply list_find_app_l).
    assert (list_find (λ billOrder, order billOrder = order o2) (<[i1 := o1]> l)
              = None) as ->%addOrder_miss.
    { rewrite (list_find_insert_miss _ _ _ x1); [done..|congruence|congruence]. }
    apply insert_app_l. by eapply lookup_lt_Some.
Qed.

Lemma foldl_addOrder_absorb new l o :
  (∀ o1, o1 ∈ new → order o1 ∈ order <$> l) →
  addOrder (foldl addOrder (addOrder l o) new) o = addOrder (foldl addOrder l new) o.
Proof.
  revert l. induction new as [|o1 new IH]; intros l Hin; simpl.
  - by apply addOrder_absorb.
  - assert (order o1 ∈ order <$> l) as Ho1 by (apply Hin; left).
    assert (∀ o', o' ∈ new → order o' ∈ order <$> addOrder l o1) as Hin'.
    { intros o' Ho'. apply addOrder_ids_mono, Hin. by right. }
    destruct (decide (order o1 = order o)) as [Heq|Hne].
    + by rewrite (addOrder_absorb l o o1).
    + rewrite (addOrder_comm l o1 o) by done. by apply IH.
Qed.

(** Regenerating from the same ledger entry changes no order line. *)
Lemma foldl_addOrder_idempotent new l :
  foldl addOrder (foldl addOrder l new) new = foldl addOrder l new.
Proof.
  revert l. induction new as [|o new IH] using rev_ind; intros l; [done|].
  rewrite !foldl_snoc.
  rewrite foldl_addOrder_absorb by (intros; by apply foldl_addOrder_ids_new).
  by rewrite IH.
Qed.

(** ** The total of a bill *)

Section Totals.
Context (m : Menu).

Lemma addPrice_known category sum id :
  knownId (category m) id →
  addPrice (Some m) category sum id = Ok (sum + menuPrice (category m) id)%float.
Proof.
  unfold knownId, addPrice, menuPrice. by intros [item ->].
Qed.

Lemma addPrice_unknown category sum id :
  ¬ knownId (category m) id → addPrice (Some m) category sum id = Err TypeError.
Proof.
  unfold knownId, addPrice. destruct (find _ (category m)); [|done].
  intros []. by eexists.
Qed.

Lemma forEach_addPrice_known category ids sum :
  Forall (knownId (category m)) ids →
  forEach ids (addPrice (Some m) category) sum
    = Ok (foldl PrimFloat.add sum (menuPrice (category m) <$> ids)).
Proof.
  intros Hids. revert sum. induction Hids as [|id ids Hid _ IH]; intros sum; [done|].
  cbn [forEach]. rewrite (addPrice_known _ _ _ Hid). apply IH.
Qed.

Lemma forEach_addPrice_Ok category ids sum sum' :
  forEach ids (addPrice (Some m) category) sum = Ok sum' →
  Forall (knownId (category m)) ids.
Proof.
  revert sum. induction ids as [|id ids IH]; intros sum; cbn [forEach];
    [by constructor|].
  destruct (decide (knownId (category m) id)) as [Hid|Hid].
  - rewrite (addPrice_known _ _ _ Hid). intros Hrest. constructor; eauto.
  - by rewrite (addPrice_unknown _ _ _ Hid).
Qed.

Lemma addLine_known sum o :
  knownLine m o → addLine (Some m) sum o = Ok (foldl PrimFloat.add sum (linePrices m o)).
Proof.
  intros [Hd Hf]. unfold addLine, linePrices.
  rewrite (forEach_addPrice_known menu_drinks _ _ Hd). simpl.
  rewrite (forEach_addPrice_known menu_food _ _ Hf). by rewrite foldl_app.
Qed.

Lemma addLine_Ok sum o sum' : addLine (Some m) sum o = Ok sum' → knownLine m o.
Proof.
  unfold addLine.
  destruct (forEach (drinks o) _ sum) as [sum1|e] eqn:Hd; simpl; [|done].
  intros Hf. split; eauto using forEach_addPrice_Ok.
Qed.

Lemma forEach_addLine_known os sum :
  Forall (knownLine m) os →
  forEach os (addLine (Some m)) sum = Ok (foldl PrimFloat.add sum (flat_map (linePrices m) os)).
Proof.
  intros Hos. revert sum. induction Hos as [|o os Ho _ IH]; intros sum; [done|].
  cbn [forEach flat_map]. rewrite (addLine_known _ _ Ho), foldl_app. apply IH.
Qed.

Lemma forEach_addLine_Ok os sum sum' :
  forEach os (addLine (Some m)) sum = Ok sum' → Forall (knownLine m) os.
Proof.
  revert sum. induction os as [|o os IH]; intros sum; cbn [forEach];
    [by constructor|].
  destruct (addLine (Some m) sum o) as [sum1|e] eqn:Ho; [|done].
  intros Hrest. constructor; eauto using addLine_Ok.
Qed.

Lemma calculateTotalSum_known newBill :
  Forall (knownLine m) (bill_orders newBill) →
  calculateTotalSum (Some m) newBill =
    Ok {| bill := bill newBill; bill_guest := bill_guest newBill;
          bill_orders := bill_orders newBill;
          totalSum := foldl PrimFloat.add (totalSum newBill)
                        (flat_map (linePrices m) (bill_orders newBill)) |}.
Proof.
  intros Hos. unfold calculateTotalSum.
  by rewrite (forEach_addLine_known _ _ Hos).
Qed.

Lemma calculateTotalSum_Ok newBill newBill' :
  calculateTotalSum (Some m) newBill = Ok newBill' →
  Forall (knownLine m) (bill_orders newBill).
Proof.
  unfold calculateTotalSum.
  destruct (forEach _ _ _) as [sum|e] eqn:Hsum; [|done].
  intros _. by eapply forEach_addLine_Ok.
Qed.
End Totals.

Lemma addPrice_Err mo category sum id e :
  addPrice mo category sum id = Err e → e = TypeError.
Proof.
  unfold addPrice. destruct mo as [m|]; [|congruence].
  destruct (find _ (category m)); congruence.
Qed.

Lemma forEach_addPrice_Err mo category ids sum e :
  forEach ids (addPrice mo category) sum = Err e → e = TypeError.
Proof.
  revert sum. induction ids as [|id ids IH]; intros sum; cbn [forEach]; [done|].
  destruct (addPrice mo category sum id) as [sum1|e1] eqn:Hid; [by apply IH|].
  intros [= <-]. by eapply addPrice_Err.
Qed.

(** Every failure of [calculateTotalSum] is a read on [undefined]. *)
Lemma calculateTotalSum_Err mo newBill e :
  calculateTotalSum mo newBill = Err e → e = TypeError.
Proof.
  unfold calculateTotalSum.
  destruct (forEach _ _ _) as [sum'|e'] eqn:Hsum; simpl; [done|].
  intros [= ->]. revert Hsum.
  generalize (totalSum newBill). induction (bill_orders newBill) as [|o os IH];
    intros sum; cbn [forEach]; [done|].
  unfold addLine at 1.
  destruct (forEach (drinks o) _ sum) as [sum1|e1] eqn:Hd; simpl.
  - destruct (forEach (food o) _ sum1) as [sum2|e2] eqn:Hf; [by apply IH|].
    intros [= <-]. by eapply forEach_addPrice_Err.
  - intros [= <-]. by eapply forEach_addPrice_Err.
Qed.

Lemma calculateTotalSum_fields mo newBill newBill' :
  calculateTotalSum mo newBill = Ok newBill' →
  bill newBill' = bill newBill ∧ bill_guest newBill' = bill_guest newBill ∧
  bill_orders newBill' = bill_orders newBill.
Proof.
  unfold calculateTotalSum. destruct (forEach _ _ _) as [sum|e]; simpl; [|done].
  by intros [= <-].
Qed.

(** ** Bill generation *)

Lemma generateBill_found this gd bi b :
  list_find (λ b', bill_guest b' = guest gd) (bills this) = Some (bi, b) →
  generateBill gd this =
    match calculateTotalSum (menu this) (regeneratedFrom b gd) with
    | Err e => Throw e this
    | Ok newBill' =>
        Return (guestBillOf newBill') (set_bills (<[bi := newBill']> (bills this)) this)
    end.
Proof.
  intros Hb. unfold generateBill.
  rewrite (findIndex_Some _ _ _ _ Hb).
  rewrite !decide_True by lia. rewrite at_index_of_nat.
  pose proof Hb as (-> & _)%list_find_Some.
  unfold addFoodOrderToBill. cbn [bill bill_guest bill_orders totalSum].
  rewrite copyLine_fmap. fold (regeneratedFrom b gd).
  destruct (calculateTotalSum _ _) as [newBill'|e]; [|done].
  rewrite ?decide_True by lia.
  rewrite splice_replace by (by eapply list_find_lt). done.
Qed.

Lemma generateBill_new this gd :
  list_find (λ b', bill_guest b' = guest gd) (bills this) = None →
  generateBill gd this =
    match calculateTotalSum (menu this) (generatedAnew this gd) with
    | Err e => Throw e (set_billIdCounter (billIdCounter this + 1) this)
    | Ok newBill' =>
        Return (guestBillOf newBill')
          (set_bills (bills this ++ [newBill'])
             (set_billIdCounter (billIdCounter this + 1) this))
    end.
Proof.
  intros Hb. unfold generateBill.
  rewrite (findIndex_None _ _ Hb).
  rewrite !decide_False by lia.
  unfold addFoodOrderToBill. cbn [bill bill_guest bill_orders totalSum menu
    set_billIdCounter bills].
  fold (generatedAnew this gd).
  destruct (calculateTotalSum _ _) as [newBill'|e]; [|done].
  by rewrite ?decide_False by lia.
Qed.

Lemma addOrder_elem_of l o x : x ∈ addOrder l o → x ∈ l ∨ x = o.
Proof.
  rewrite addOrder_alt. destruct (list_find _ l) as [[i y]|].
  - intros (j & Hj)%list_elem_of_lookup_1.
    apply list_lookup_insert_Some in Hj as [(_ & -> & _)|[_ Hj]]; [by right|].
    left. by eapply list_elem_of_lookup_2.
  - intros [?|H%list_elem_of_singleton]%elem_of_app; auto.
Qed.

(** Every line of a regenerated bill is a line of the base or a line of
    the ledger entry. *)
Lemma foldl_addOrder_elem_of new l x :
  x ∈ foldl addOrder l new → x ∈ l ∨ x ∈ new.
Proof.
  revert l. induction new as [|o new IH]; intros l; simpl; [auto|].
  intros H. apply IH in H as [H|H].
  - apply addOrder_elem_of in H as [H|H]; [by left|]. right. subst x. by left.
  - right. by right.
Qed.

Lemma foldl_addOrder_known m new l :
  Forall (knownLine m) l → Forall (knownLine m) new →
  Forall (knownLine m) (foldl addOrder l new).
Proof.
  rewrite !list.Forall_forall. intros Hl Hnew x [?|?]%foldl_addOrder_elem_of; auto.
Qed.

Lemma addOrder_elem_new l o : o ∈ addOrder l o.
Proof.
  rewrite addOrder_alt. destruct (list_find _ l) as [[i y]|] eqn:Hf.
  - apply (list_elem_of_lookup_2 _ i). apply list_lookup_insert_eq.
    by eapply list_find_lt.
  - apply elem_of_app. right. by apply list_elem_of_singleton.
Qed.

Lemma addOrder_lookup_other l o i x :
  l !! i = Some x → order x ≠ order o → addOrder l o !! i = Some x.
Proof.
  intros Hl Hne. rewrite addOrder_alt.
  destruct (list_find _ l) as [[j y]|] eqn:Hf.
  - apply list_find_Some in Hf as (Hj & Hk & _).
    rewrite list_lookup_insert_ne; [done|]. intros ->. congruence.
  - by apply lookup_app_l_Some.
Qed.

(** A line whose order id the ledger entry does not mention stays where it
    is, as it is. *)
Lemma foldl_addOrder_lookup_stale new l i x :
  l !! i = Some x → order x ∉ order <$> new → foldl addOrder l new !! i = Some x.
Proof.
  revert l. induction new as [|o new IH]; intros l Hl Hx; simpl; [done|].
  apply IH.
  - apply addOrder_lookup_other; [done|]. intros Heq. apply Hx. csimpl.
    rewrite Heq. by left.
  - intros ?. apply Hx. csimpl. by right.
Qed.

(** With distinct order ids in the ledger entry, each of its lines is on
    the regenerated bill. *)
Lemma foldl_addOrder_elem_new new l o :
  NoDup (order <$> new) → o ∈ new → o ∈ foldl addOrder l new.
Proof.
  revert l. induction new as [|o' new IH]; intros l Hnd Ho; simpl.
  - by apply elem_of_nil in Ho.
  - csimpl in Hnd. apply list.NoDup_cons in Hnd as [Hfresh Hnd].
    apply elem_of_cons in Ho as [->|Ho]; [|by apply IH].
    destruct (list_elem_of_lookup_1 _ _ (addOrder_elem_new l o')) as [i Hi].
    apply (list_elem_of_lookup_2 _ i). by apply foldl_addOrder_lookup_stale.
Qed.

Lemma foldl_addOrder_prefix new l :
  (order <$> l) `prefix_of` (order <$> foldl addOrder l new).
Proof.
  revert l. induction new as [|o new IH]; intros l; simpl; [done|].
  etrans; [|apply IH]. rewrite addOrder_ids. case_decide; [done|].
  by apply prefix_app_r.
Qed.

(** C2: with the menu loaded and a menu item for every id of the ledger
    entry and of the guest's open bill, [generateBill] returns, and the bill
    it stores for the guest has as [totalSum] the sum, from zero, of the
    menu prices of every drink id and food id of its own order lines; the
    total of the bill it replaces plays no part. *)
Theorem generateBill_totalSum this guestDelivery m :
  menu this = Some m →
  Forall (knownLine m) (orders guestDelivery) →
  (∀ b, openBill this (guest guestDelivery) = Some b →
        Forall (knownLine m) (bill_orders b)) →
  ∃ guestBill this' newBill,
    generateBill guestDelivery this = Return guestBill this' ∧
    openBill this' (guest guestDelivery) = Some newBill ∧
    totalSum newBill = priceSum m (bill_orders newBill) ∧
    gb_bill guestBill = bill newBill ∧
    gb_totalSum guestBill = totalSum newBill.
Proof.
  intros Hm Hgd Hopen. unfold openBill in *.
  destruct (list_find (λ b', bill_guest b' = guest guestDelivery) (bills this))
    as [[bi b]|] eqn:Hb.
  - rewrite (generateBill_found _ _ _ _ Hb), Hm.
    rewrite calculateTotalSum_known; last first.
    { apply foldl_addOrder_known; [|done]. apply Hopen. by eapply find_of_list_find. }
    eexists _, _, _. split; [done|]. split.
    { cbn [bills set_bills]. eapply find_of_list_find, list_find_insert_hit; [done|].
      simpl. by apply list_find_Some in Hb as (_ & ? & _). }
    split_and!; reflexivity.
  - rewrite (generateBill_new _ _ Hb), Hm.
    rewrite calculateTotalSum_known; last first.
    { apply foldl_addOrder_known; [by constructor|done]. }
    eexists _, _, _. split; [done|]. split.
    { cbn [bills set_bills set_billIdCounter].
      eapply find_of_list_find, list_find_snoc_new; done. }
    split_and!; reflexivity.
Qed.

(** The end-to-end scenario, when the bill of 15 is already open: plates
    101 and 102 and drink 201 at prices 5, 7 and 3 give a bill of 15 again,
    not of 30. *)
Lemma generateBill_totalSum_witness :
  let entry := {| guest := 1;
                  orders := [{| order := 1; food := [101; 102]; drinks := [201] |}] |} in
  let this := set_menu (Some menuOfTheDay) paidScenario in
  (∃ guestBill this' newBill,
     generateBill entry this = Return guestBill this' ∧
     openBill this' 1 = Some newBill ∧
     totalSum newBill = priceSum menuOfTheDay (bill_orders newBill) ∧
     gb_bill guestBill = bill newBill ∧
     gb_totalSum guestBill = totalSum newBill) ∧
  totalSum <$> openBill this 1 = Some 15%float ∧
  totalSum <$> openBill (final_state (generateBill entry this)) 1 = Some 15%float.
Proof.
  intros entry this. split; [|split; reflexivity].
  apply (generateBill_totalSum this entry menuOfTheDay).
  - reflexivity.
  - repeat constructor; by eexists.
  - intros b Hb. injection Hb as <-. repeat constructor; by eexists.
Defined.

(** C3: a second [generateBill] for the same ledger entry, directly after
    the first, returns the same guest bill (bill id, total, flattened food
    and drinks) and leaves the service as the first call left it. *)
Theorem generateBill_idempotent this guestDelivery guestBill this1 :
  generateBill guestDelivery this = Return guestBill this1 →
  generateBill guestDelivery this1 = Return guestBill this1.
Proof.
  intros Hfirst.
  destruct (list_find (λ b', bill_guest b' = guest guestDelivery) (bills this))
    as [[bi b]|] eqn:Hb.
  - rewrite (generateBill_found _ _ _ _ Hb) in Hfirst.
    destruct (calculateTotalSum (menu this) (regeneratedFrom b guestDelivery))
      as [newBill|e] eqn:Hsum; [|done].
    injection Hfirst as <- <-.
    pose proof (calculateTotalSum_fields _ _ _ Hsum) as (Hid & Hguest & Horders).
    pose proof Hb as (_ & Hbg & _)%list_find_Some.
    assert (list_find (λ b', bill_guest b' = guest guestDelivery)
              (bills (set_bills (<[bi := newBill]> (bills this)) this))
            = Some (bi, newBill)) as Hb1.
    { cbn [bills set_bills]. eapply list_find_insert_hit; [done|]. by rewrite Hguest. }
    rewrite (generateBill_found _ _ _ _ Hb1). cbn [menu set_bills bills].
    assert (regeneratedFrom newBill guestDelivery = regeneratedFrom b guestDelivery) as ->.
    { unfold regeneratedFrom. rewrite Hid, Hguest, Horders. simpl.
      by rewrite foldl_addOrder_idempotent. }
    rewrite Hsum. by rewrite list_insert_insert_eq.
  - rewrite (generateBill_new _ _ Hb) in Hfirst.
    destruct (calculateTotalSum (menu this) (generatedAnew this guestDelivery))
      as [newBill|e] eqn:Hsum; [|done].
    injection Hfirst as <- <-.
    pose proof (calculateTotalSum_fields _ _ _ Hsum) as (Hid & Hguest & Horders).
    set (this1 := set_bills _ _).
    assert (list_find (λ b', bill_guest b' = guest guestDelivery) (bills this1)
            = Some (length (bills this), newBill)) as Hb1.
    { apply list_find_snoc_new; [done|]. by rewrite Hguest. }
    rewrite (generateBill_found _ _ _ _ Hb1).
    assert (regeneratedFrom newBill guestDelivery = generatedAnew this guestDelivery) as ->.
    { unfold regeneratedFrom, generatedAnew. rewrite Hid, Hguest, Horders. simpl.
      by rewrite foldl_addOrder_idempotent. }
    change (menu this1) with (menu this). rewrite Hsum. f_equal.
    apply list_find_Some in Hb1 as (Hb1 & _). revert Hb1.
    unfold this1, set_bills. simpl. intros Hb1. f_equal.
    by apply list_insert_id.
Qed.

(** Two bills in a row for the delivered order of the scenario. *)
Lemma generateBill_idempotent_witness :
  let entry := {| guest := 1;
                  orders := [{| order := 1; food := [101; 102]; drinks := [201] |}] |} in
  let this := set_menu (Some menuOfTheDay) (set_guestOrders [entry] newBillingService) in
  let guestBill := {| gb_bill := 1; orderedDrinks := [201]; orderedFood := [101; 102];
                      gb_totalSum := 15 |} in
  let this1 := final_state (generateBill entry this) in
  generateBill entry this = Return guestBill this1 ∧
  generateBill entry this1 = Return guestBill this1.
Proof.
  intros entry this guestBill this1.
  assert (generateBill entry this = Return guestBill this1) as Hfirst by reflexivity.
  split; [exact Hfirst|].
  exact (generateBill_idempotent this entry guestBill this1 Hfirst).
Defined.

(** C5 (as the code has it): with the menu loaded, a ledger entry of
    distinct order ids that holds a food or drink id without menu item makes
    [generateBill] throw the runtime's TypeError of the read of [price] on
    [undefined]; no bill is stored or replaced and the ledger is untouched. *)
Theorem generateBill_unknown_item_throws_TypeError this guestDelivery m o :
  menu this = Some m →
  NoDup (order <$> orders guestDelivery) →
  o ∈ orders guestDelivery →
  ¬ knownLine m o →
  ∃ this',
    generateBill guestDelivery this = Throw TypeError this' ∧
    bills this' = bills this ∧
    guestOrders this' = guestOrders this ∧
    menu this' = menu this.
Proof.
  intros Hm Hnd Ho Hunknown.
  assert (∀ base newBill,
            bill_orders newBill = foldl addOrder base (orders guestDelivery) →
            calculateTotalSum (menu this) newBill = Err TypeError) as Hthrow.
  { intros base newBill Horders.
    destruct (calculateTotalSum (menu this) newBill) as [newBill'|e] eqn:Hsum.
    - rewrite Hm in Hsum. apply calculateTotalSum_Ok in Hsum.
      rewrite list.Forall_forall in Hsum. destruct Hunknown. apply Hsum.
      rewrite Horders. by apply foldl_addOrder_elem_new.
    - by rewrite (calculateTotalSum_Err _ _ _ Hsum). }
  destruct (list_find (λ b', bill_guest b' = guest guestDelivery) (bills this))
    as [[bi b]|] eqn:Hb.
  - rewrite (generateBill_found _ _ _ _ Hb), (Hthrow (bill_orders b)) by done.
    by eexists.
  - rewrite (generateBill_new _ _ Hb), (Hthrow []) by done.
    by eexists.
Qed.

(** Plate 999 is not on the menu of the day. *)
Lemma generateBill_unknown_item_throws_TypeError_witness :
  let line := {| order := 1; food := [101; 999]; drinks := [201] |} in
  let entry := {| guest := 1; orders := [line] |} in
  let this := set_menu (Some menuOfTheDay) (set_guestOrders [entry] newBillingService) in
  ∃ this',
    generateBill entry this = Throw TypeError this' ∧
    bills this' = bills this ∧
    guestOrders this' = guestOrders this ∧
    menu this' = menu this.
Proof.
  intros line entry this.
  apply (generateBill_unknown_item_throws_TypeError this entry menuOfTheDay line).
  - reflexivity.
  - apply (NoDup_singleton (1 : Z)).
  - by left.
  - intros [_ Hfood]. apply list.Forall_cons in Hfood as [_ Hfood].
    apply list.Forall_cons in Hfood as [[item Hitem] _]. discriminate Hitem.
Defined.

(** C5 (as stated) fails: for a ledger entry with plate 999, which the
    menu does not list, [generateBill] does not surface UnknownMenuItem; the
    call dies of the TypeError of the missing-value access. *)
Lemma generateBill_UnknownMenuItem_counterexample :
  let entry := {| guest := 1; orders := [{| order := 1; food := [999]; drinks := [] |}] |} in
  let this := set_menu (Some menuOfTheDay) (set_guestOrders [entry] newBillingService) in
  find (λ item, item_id item = 999) (menu_food menuOfTheDay) = None ∧
  generateBill entry this = Throw TypeError (set_billIdCounter 2 this) ∧
  ¬ (∃ this', generateBill entry this = Throw (Explicit UnknownMenuItem) this').
Proof.
  intros entry this. split_and!; [reflexivity..|]. intros [this' H]. discriminate H.
Qed.

Lemma addOrder_find_new l o :
  ∃ i, list_find (λ billOrder, order billOrder = order o) (addOrder l o) = Some (i, o).
Proof.
  destruct (list_find (λ billOrder, order billOrder = order o) l) as [[i x]|] eqn:Hf.
  - rewrite (addOrder_hit _ _ _ _ Hf). exists i. by eapply list_find_insert_hit.
  - rewrite (addOrder_miss _ _ Hf). eexists. by apply list_find_snoc_new.
Qed.

Lemma addOrder_find_other l o k i x :
  list_find (λ billOrder, order billOrder = k) l = Some (i, x) →
  order o ≠ k →
  list_find (λ billOrder, order billOrder = k) (addOrder l o) = Some (i, x).
Proof.
  intros Hk Hne.
  destruct (list_find (λ billOrder, order billOrder = order o) l) as [[j y]|] eqn:Hf.
  - rewrite (addOrder_hit _ _ _ _ Hf).
    pose proof Hf as (Hj & Hy & _)%list_find_Some.
    rewrite (list_find_insert_miss _ _ _ y); [done..|congruence|done].
  - rewrite (addOrder_miss _ _ Hf). by apply list_find_app_l.
Qed.

Lemma find_cons_miss {A} (P : A → Prop) `{!∀ x, Decision (P x)} (x : A) (l : list A) :
  ¬ P x → find P (x :: l) = find P l.
Proof.
  intros Hx. unfold find. simpl. rewrite decide_False by done.
  by destruct (list_find P l) as [[i y]|].
Qed.

Lemma find_cons_hit {A} (P : A → Prop) `{!∀ x, Decision (P x)} (x : A) (l : list A) :
  P x → find P (x :: l) = Some x.
Proof. intros Hx. unfold find. simpl. by rewrite decide_True. Qed.

(** The first line of an order id keeps its place on the bill. *)
Lemma foldl_addOrder_find_index new l k j x :
  list_find (λ billOrder, order billOrder = k) l = Some (j, x) →
  ∃ x', list_find (λ billOrder, order billOrder = k) (foldl addOrder l new) = Some (j, x').
Proof.
  revert l x. induction new as [|o new IH]; intros l x Hk; simpl; [eauto|].
  destruct (decide (order o = k)) as [<-|Hne].
  - rewrite (addOrder_hit _ _ _ _ Hk). eapply IH.
    by eapply list_find_insert_hit.
  - eapply IH. by apply addOrder_find_other.
Qed.

(** A line of an order id that the base does not have lies behind the
    lines of the base. *)
Lemma foldl_addOrder_find_behind new l k i x :
  list_find (λ billOrder, order billOrder = k) l = None →
  list_find (λ billOrder, order billOrder = k) (foldl addOrder l new) = Some (i, x) →
  (length l ≤ i)%nat.
Proof.
  intros Hnone (Hi & Hx & _)%list_find_Some.
  destruct (decide (i < length l)%nat) as [Hlt|]; [|lia]. exfalso.
  destruct (lookup_lt_is_Some_2 l i Hlt) as [y Hy].
  assert ((order <$> foldl addOrder l new) !! i = Some (order y)) as Hpre.
  { eapply prefix_lookup_Some; [|apply foldl_addOrder_prefix].
    by rewrite list_lookup_fmap, Hy. }
  rewrite list_lookup_fmap, Hi in Hpre. simpl in Hpre.
  rewrite list_find_None, Forall_lookup in Hnone.
  apply (Hnone i y Hy). congruence.
Qed.

(** Each order id of the ledger entry has, as its first line on the
    regenerated bill, the last line the entry holds for it: in the place of
    the first line the base had for that id, or behind the lines of the
    base when it had none. *)
Lemma foldl_addOrder_overwrites new l k :
  k ∈ order <$> new →
  ∃ i o,
    find (λ line, order line = k) (reverse new) = Some o ∧
    list_find (λ billOrder, order billOrder = k) (foldl addOrder l new) = Some (i, o) ∧
    match list_find (λ billOrder, order billOrder = k) l with
    | Some (j, _) => i = j
    | None => (length l ≤ i)%nat
    end.
Proof.
  induction new as [|o new IH] using rev_ind; intros Hk.
  - by apply elem_of_nil in Hk.
  - rewrite foldl_snoc, reverse_snoc.
    assert (∀ i x,
              list_find (λ billOrder, order billOrder = k)
                (addOrder (foldl addOrder l new) o) = Some (i, x) →
              match list_find (λ billOrder, order billOrder = k) l with
              | Some (j, _) => i = j
              | None => (length l ≤ i)%nat
              end) as Hplace.
    { intros i x Hix.
      change (addOrder (foldl addOrder l new) o) with (foldl addOrder (foldl addOrder l new) [o])
        in Hix.
      rewrite <- foldl_app in Hix.
      destruct (list_find (λ billOrder, order billOrder = k) l) as [[j y]|] eqn:Hl.
      - destruct (foldl_addOrder_find_index (new ++ [o]) _ _ _ _ Hl) as [x' Hx'].
        congruence.
      - by eapply foldl_addOrder_find_behind. }
    destruct (decide (order o = k)) as [Heq|Hne].
    + destruct (addOrder_find_new (foldl addOrder l new) o) as [i Hi].
      rewrite Heq in Hi. exists i, o. split_and!; [by apply find_cons_hit|done|].
      by eapply Hplace.
    + assert (k ∈ order <$> new) as Hk'.
      { rewrite fmap_app in Hk. apply elem_of_app in Hk as [?|Hk]; [done|].
        apply list_elem_of_singleton in Hk. simpl in Hk. congruence. }
      destruct (IH Hk') as (i & o' & Hlast & Hfind & _).
      exists i, o'. split_and!.
      * by rewrite find_cons_miss.
      * by apply addOrder_find_other.
      * eapply Hplace. by apply addOrder_find_other.
Qed.

(** The order ids of the regenerated bill: those of the base, then, once
    each, the order ids of the ledger entry that the base does not have. *)
Lemma foldl_addOrder_ids_appended new l :
  ∃ appended,
    order <$> foldl addOrder l new = (order <$> l) ++ appended ∧
    NoDup appended ∧
    ∀ k, k ∈ appended ↔ k ∈ order <$> new ∧ k ∉ order <$> l.
Proof.
  revert l. induction new as [|o new IH]; intros l; simpl.
  - exists []. rewrite app_nil_r. split_and!; [done|constructor|].
    intros k. split; [by intros ?%elem_of_nil|]. by intros [?%elem_of_nil _].
  - destruct (IH (addOrder l o)) as (appended & Hids & Hnd & Hin).
    rewrite addOrder_ids in Hids, Hin. csimpl.
    destruct (decide (order o ∈ order <$> l)) as [Hold|Hnew].
    + exists appended. split_and!; [done..|]. intros k. rewrite elem_of_cons. split.
      * intros [? ?]%Hin. auto.
      * intros [[->|?] ?]; [done|]. apply Hin. auto.
    + assert (∀ k, k ∉ (order <$> l) ++ [order o] ↔ (k ∉ (order <$> l)) ∧ k ≠ order o)
        as Hsnoc.
      { intros k. rewrite elem_of_app, list_elem_of_singleton. tauto. }
      exists (order o :: appended). split_and!.
      * by rewrite Hids, <- app_assoc.
      * apply NoDup_cons_2; [|done]. intros [_ Hn]%Hin. by apply Hsnoc in Hn as [_ ?].
      * intros k. rewrite !elem_of_cons. split.
        -- intros [->|[Hk Hn]%Hin]; [auto|]. apply Hsnoc in Hn as [? _]. auto.
        -- intros [[->|Hk] Hn]; [by left|].
           destruct (decide (k = order o)) as [->|Hne]; [by left|].
           right. apply Hin. split; [done|]. by apply Hsnoc.
Qed.

(** C9: when the guest has an open bill, the regenerated bill keeps the
    bill id, keeps the order ids of the prior bill in place (no line is
    deleted) and appends, once each, the order ids of the ledger entry that
    the prior bill did not have; it consists of prior lines and lines of the
    ledger entry only.  For every order id of the ledger entry, the first
    line of that id on the new bill is the last line the entry holds for it:
    it overwrites the prior bill's first line of that id in its place, or is
    appended behind the prior lines when there was none.  Every prior line
    whose order id the ledger entry does not mention stays unchanged in its
    place; its ids are among the flattened food and drinks returned and are
    priced into the new total, which is the price sum of all lines of the
    regenerated bill. *)
Theorem generateBill_keeps_stale_lines this guestDelivery m bi b guestBill this' :
  menu this = Some m →
  list_find (λ b', bill_guest b' = guest guestDelivery) (bills this) = Some (bi, b) →
  generateBill guestDelivery this = Return guestBill this' →
  ∃ newBill,
    list_find (λ b', bill_guest b' = guest guestDelivery) (bills this') = Some (bi, newBill) ∧
    bill newBill = bill b ∧ gb_bill guestBill = bill b ∧
    (order <$> bill_orders b) `prefix_of` (order <$> bill_orders newBill) ∧
    (∀ line, line ∈ bill_orders newBill →
       line ∈ bill_orders b ∨ line ∈ orders guestDelivery) ∧
    (∀ i line, bill_orders b !! i = Some line →
       order line ∉ order <$> orders guestDelivery →
       bill_orders newBill !! i = Some line ∧
       food line ⊆ orderedFood guestBill ∧
       drinks line ⊆ orderedDrinks guestBill) ∧
    totalSum newBill = priceSum m (bill_orders newBill) ∧
    gb_totalSum guestBill = totalSum newBill ∧
    (∃ appended,
       order <$> bill_orders newBill = (order <$> bill_orders b) ++ appended ∧
       NoDup appended ∧
       ∀ k, k ∈ appended ↔
            k ∈ order <$> orders guestDelivery ∧ k ∉ order <$> bill_orders b) ∧
    (∀ k, k ∈ order <$> orders guestDelivery →
       ∃ i o,
         find (λ line, order line = k) (reverse (orders guestDelivery)) = Some o ∧
         list_find (λ line, order line = k) (bill_orders newBill) = Some (i, o) ∧
         match list_find (λ line, order line = k) (bill_orders b) with
         | Some (j, _) => i = j
         | None => (length (bill_orders b) ≤ i)%nat
         end) ∧
    orderedFood guestBill = flat_map food (bill_orders newBill) ∧
    orderedDrinks guestBill = flat_map drinks (bill_orders newBill).
Proof.
  intros Hm Hb Hgen. rewrite (generateBill_found _ _ _ _ Hb) in Hgen.
  destruct (calculateTotalSum (menu this) (regeneratedFrom b guestDelivery))
    as [newBill|e] eqn:Hsum; [|done].
  injection Hgen as <- <-.
  pose proof (calculateTotalSum_fields _ _ _ Hsum) as (Hid & Hguest & Horders).
  simpl in Hid, Hguest, Horders.
  pose proof Hb as (_ & Hbg & _)%list_find_Some.
  exists newBill. split_and!.
  - cbn [bills set_bills]. eapply list_find_insert_hit; [done|]. congruence.
  - done.
  - done.
  - rewrite Horders. apply foldl_addOrder_prefix.
  - intros line. rewrite Horders. apply foldl_addOrder_elem_of.
  - intros i line Hline Hstale.
    assert (bill_orders newBill !! i = Some line) as Hkept
      by (rewrite Horders; by apply foldl_addOrder_lookup_stale).
    apply list_elem_of_lookup_2 in Hkept.
    split_and!; [by rewrite Horders; apply foldl_addOrder_lookup_stale|..];
      intros id Hin; apply list_elem_of_In, in_flat_map; exists line;
      by rewrite <- !list_elem_of_In.
  - rewrite Hm in Hsum. pose proof (calculateTotalSum_Ok _ _ _ Hsum) as Hknown.
    rewrite (calculateTotalSum_known _ _ Hknown) in Hsum. by injection Hsum as <-.
  - done.
  - rewrite Horders. apply foldl_addOrder_ids_appended.
  - intros k Hk. rewrite Horders. by apply foldl_addOrder_overwrites.
  - done.
  - done.
Qed.

(** The open bill holds order 1 with plate 101 and order 2 with plate 102;
    the ledger entry handed in holds order 2 with plate 102 twice and the
    new order 3 with drink 201.  Order 1 stays on the bill and in the total,
    order 2 is overwritten in its place, order 3 is appended:
    5 + (7 + 7) + 3 = 22. *)
Lemma generateBill_keeps_stale_lines_witness :
  let stale := {| order := 1; food := [101]; drinks := [] |} in
  let b := {| bill := 1; bill_guest := 1;
              bill_orders := [stale; {| order := 2; food := [102]; drinks := [] |}];
              totalSum := 12 |} in
  let again := {| order := 2; food := [102; 102]; drinks := [] |} in
  let fresh := {| order := 3; food := []; drinks := [201] |} in
  let entry := {| guest := 1; orders := [again; fresh] |} in
  let this := set_menu (Some menuOfTheDay) (set_bills [b] newBillingService) in
  generateBill entry this
    = Return {| gb_bill := 1; orderedDrinks := [201]; orderedFood := [101; 102; 102];
                gb_totalSum := 22 |}
        (final_state (generateBill entry this)) ∧
  ∃ newBill,
    openBill (final_state (generateBill entry this)) 1 = Some newBill ∧
    bill_orders newBill !! 0%nat = Some stale ∧
    list_find (λ line, order line = 2) (bill_orders newBill) = Some (1%nat, again) ∧
    (∃ i, list_find (λ line, order line = 3) (bill_orders newBill) = Some (i, fresh) ∧
          (2 ≤ i)%nat) ∧
    length (bill_orders newBill) = 3%nat ∧
    totalSum newBill = priceSum menuOfTheDay (bill_orders newBill).
Proof.
  intros stale b again fresh entry this.
  assert (generateBill entry this
          = Return {| gb_bill := 1; orderedDrinks := [201]; orderedFood := [101; 102; 102];
                      gb_totalSum := 22 |}
              (final_state (generateBill entry this))) as Hgen by reflexivity.
  split; [exact Hgen|].
  destruct (generateBill_keeps_stale_lines this entry menuOfTheDay 0%nat b _ _
              eq_refl eq_refl Hgen)
    as (newBill & Hfind & _ & _ & _ & _ & Hstale & Hsum & _ & Hids & Hover & _).
  exists newBill. split_and!.
  - by eapply find_of_list_find.
  - apply (Hstale 0%nat stale); [reflexivity|].
    intros [Hin|Hin]%elem_of_cons; [discriminate Hin|].
    apply list_elem_of_singleton in Hin. discriminate Hin.
  - destruct (Hover 2) as (i & o & Hlast & Hnew & Hplace); [by left|].
    injection Hlast as <-. simpl in Hplace. by subst i.
  - destruct (Hover 3) as (i & o & Hlast & Hnew & Hplace); [right; by left|].
    injection Hlast as <-. simpl in Hplace. by exists i.
  - destruct Hids as (appended & Hids & Hnd & Hin).
    assert (appended = [3]) as ->.
    { assert (3 ∈ appended) as H3.
      { apply Hin. split; [right; by left|].
        intros [H|H]%elem_of_cons; [discriminate H|].
        apply list_elem_of_singleton in H. discriminate H. }
      assert (∀ k, k ∈ appended → k = 3) as Honly.
      { intros k [Hk Hnk]%Hin. apply elem_of_cons in Hk as [->|Hk].
        - destruct Hnk. right. by left.
        - by apply list_elem_of_singleton in Hk. }
      destruct appended as [|k1 [|k2 rest]].
      - by apply elem_of_nil in H3.
      - f_equal. apply Honly. by left.
      - apply list.NoDup_cons in Hnd as [Hk1 _]. destruct Hk1.
        rewrite (Honly k1), <- (Honly k2); [by left|right; by left|by left]. }
    apply (f_equal length) in Hids. by rewrite !length_fmap in Hids.
  - exact Hsum.
Defined.

(** ** The state invariant *)

Section Keys.
Context {A : Type} (key : A → Z).
Implicit Types l : list A.

Lemma keys_insert_same l i x x' :
  l !! i = Some x → key x' = key x → key <$> <[i := x']> l = key <$> l.
Proof.
  intros Hl Hk. rewrite list_fmap_insert. apply list_insert_id.
  by rewrite list_lookup_fmap, Hl, Hk.
Qed.

Lemma keys_snoc_NoDup l x :
  NoDup (key <$> l) → list_find (λ y, key y = key x) l = None →
  NoDup (key <$> (l ++ [x])).
Proof.
  intros Hnd Hf. rewrite fmap_app. apply list.NoDup_app. split_and!; [done| |].
  - intros k (y & -> & Hy)%list_elem_of_fmap Hk.
    apply list_elem_of_singleton in Hk.
    rewrite list_find_None, list.Forall_forall in Hf. by apply (Hf y).
  - apply NoDup_singleton.
Qed.

Lemma keys_delete_NoDup l i : NoDup (key <$> l) → NoDup (key <$> delete i l).
Proof.
  intros Hnd. apply (sublist_NoDup _ (key <$> l)); [done|].
  apply fmap_sublist, sublist_delete.
Qed.

Lemma keys_filter_NoDup (P : A → Prop) `{!∀ x, Decision (P x)} l :
  NoDup (key <$> l) → NoDup (key <$> filter P l).
Proof.
  intros Hnd. apply (sublist_NoDup _ (key <$> l)); [done|].
  apply fmap_sublist, sublist_filter.
Qed.
End Keys.

Lemma removeBilledItems_ids b (os : list OrderLine) :
  order <$> (removeBilledItems b <$> os) = order <$> os.
Proof.
  rewrite <- list_fmap_compose. apply list_fmap_ext.
  intros i o _. apply removeBilledItems_order.
Qed.

Lemma ledgerInvariant_registerDeliveredItems ir this :
  ledgerInvariant this → ledgerInvariant (registerDeliveredItems ir this).
Proof.
  intros [Hguests Horders Hbills].
  split; [| |by rewrite (proj1 (registerDeliveredItems_other_fields ir this))];
    unfold registerDeliveredItems;
    destruct (list_find _ (guestOrders this)) as [[gi entry]|] eqn:Hg.
  - pose proof Hg as (Hgl & _)%list_find_Some.
    destruct (list_find _ (orders entry)) as [[oi line]|]; simpl;
      by rewrite (keys_insert_same guest _ _ entry).
  - simpl. by apply (keys_snoc_NoDup guest).
  - pose proof Hg as (Hgl & _)%list_find_Some.
    pose proof (Forall_lookup_1 _ _ _ _ Horders Hgl) as Hentry. simpl in Hentry.
    destruct (list_find _ (orders entry)) as [[oi line]|] eqn:Ho; simpl;
      apply Forall_insert; try done; simpl.
    + pose proof Ho as (Hol & _)%list_find_Some.
      by rewrite (keys_insert_same order _ _ line).
    + by apply (keys_snoc_NoDup order).
  - simpl. apply Forall_app. split; [done|].
    constructor; [|by constructor]. apply (NoDup_singleton (ir_order ir)).
Qed.

Lemma ledgerInvariant_generateBill guestDelivery this :
  ledgerInvariant this → ledgerInvariant (final_state (generateBill guestDelivery this)).
Proof.
  intros [Hguests Horders Hbills].
  destruct (list_find (λ b', bill_guest b' = guest guestDelivery) (bills this))
    as [[bi b]|] eqn:Hb.
  - rewrite (generateBill_found _ _ _ _ Hb).
    destruct (calculateTotalSum _ _) as [newBill|e] eqn:Hsum; simpl; [|done].
    split; [done..|]. simpl.
    pose proof (calculateTotalSum_fields _ _ _ Hsum) as (_ & Hguest & _).
    pose proof Hb as (Hbl & _)%list_find_Some.
    by rewrite (keys_insert_same bill_guest _ _ b).
  - rewrite (generateBill_new _ _ Hb).
    destruct (calculateTotalSum _ _) as [newBill|e] eqn:Hsum; simpl; [|done].
    split; [done..|]. simpl.
    pose proof (calculateTotalSum_fields _ _ _ Hsum) as (_ & Hguest & _).
    apply (keys_snoc_NoDup bill_guest); [done|]. by rewrite Hguest.
Qed.

Lemma ledgerInvariant_registerPayment billId this :
  ledgerInvariant this → ledgerInvariant (final_state (registerPayment billId this)).
Proof.
  intros Hinv.
  destruct (list_find (λ b', bill b' = billId) (bills this)) as [[bi b]|] eqn:Hb;
    [|by rewrite (registerPayment_no_bill _ _ Hb)].
  destruct (list_find (λ items, guest items = bill_guest b) (guestOrders this))
    as [[gi entry]|] eqn:Hg;
    [|by rewrite (registerPayment_no_guest _ _ _ _ Hb Hg)].
  rewrite (registerPayment_found _ _ _ _ _ _ Hb Hg).
  destruct Hinv as [Hguests Horders Hbills].
  pose proof Hg as (Hgl & _)%list_find_Some.
  split; simpl.
  - by rewrite (keys_insert_same guest _ _ entry).
  - apply Forall_insert; [done|]. simpl.
    apply (keys_filter_NoDup order). rewrite removeBilledItems_ids.
    apply (Forall_lookup_1 _ _ _ _ Horders Hgl).
  - by apply (keys_delete_NoDup bill_guest).
Qed.

(** Bill ids come from a counter that only grows, so the ids of the open
    bills of a service that started fresh are pairwise distinct. *)
Lemma billIdsFresh_new : billIdsFresh newBillingService.
Proof. split; simpl; constructor. Qed.

Lemma billIdsFresh_preserved this :
  billIdsFresh this →
  (∀ itemRegistration, billIdsFresh (registerDeliveredItems itemRegistration this)) ∧
  (∀ guestDelivery, billIdsFresh (final_state (generateBill guestDelivery this))) ∧
  (∀ billId, billIdsFresh (final_state (registerPayment billId this))).
Proof.
  intros [Hnd Hlt]. split_and!.
  - intros ir. unfold billIdsFresh.
    destruct (registerDeliveredItems_other_fields ir this) as (-> & _ & ->). done.
  - intros gd.
    destruct (list_find (λ b', bill_guest b' = guest gd) (bills this))
      as [[bi b]|] eqn:Hb.
    + rewrite (generateBill_found _ _ _ _ Hb).
      destruct (calculateTotalSum _ _) as [newBill|e] eqn:Hsum; simpl; [|done].
      pose proof (calculateTotalSum_fields _ _ _ Hsum) as (Hid & _ & _).
      pose proof Hb as (Hbl & _)%list_find_Some. simpl in Hid.
      split; simpl.
      * by rewrite (keys_insert_same bill _ _ b).
      * apply Forall_insert; [done|]. rewrite Hid.
        apply (Forall_lookup_1 _ _ _ _ Hlt Hbl).
    + assert (Forall (λ b, bill b < billIdCounter this + 1) (bills this)) as Hlt'.
      { eapply list.Forall_impl; [done|]. intros b' ?. simpl in *. lia. }
      rewrite (generateBill_new _ _ Hb).
      destruct (calculateTotalSum _ _) as [newBill|e] eqn:Hsum; simpl; [|done].
      pose proof (calculateTotalSum_fields _ _ _ Hsum) as (Hid & _ & _).
      simpl in Hid. split; simpl.
      * apply (keys_snoc_NoDup bill); [done|].
        apply list_find_None. eapply list.Forall_impl; [exact Hlt|].
        intros b' ?. simpl in *. lia.
      * apply Forall_app. split; [done|]. constructor; [lia|constructor].
  - intros billId.
    destruct (list_find (λ b', bill b' = billId) (bills this)) as [[bi b]|] eqn:Hb;
      [|by rewrite (registerPayment_no_bill _ _ Hb)].
    destruct (list_find (λ items, guest items = bill_guest b) (guestOrders this))
      as [[gi entry]|] eqn:Hg;
      [|by rewrite (registerPayment_no_guest _ _ _ _ Hb Hg)].
    rewrite (registerPayment_found _ _ _ _ _ _ Hb Hg). split; simpl.
    + by apply (keys_delete_NoDup bill).
    + by apply Forall_delete.
Qed.

(** C7: deliveries, bill generation and payments keep the invariant: at
    most one ledger entry per guest, at most one order line per order id
    within an entry, at most one open bill per guest (also when the call
    ends by an exception). *)
Theorem ledgerInvariant_preserved this :
  ledgerInvariant this →
  (∀ itemRegistration, ledgerInvariant (registerDeliveredItems itemRegistration this)) ∧
  (∀ guestDelivery, ledgerInvariant (final_state (generateBill guestDelivery this))) ∧
  (∀ billId, ledgerInvariant (final_state (registerPayment billId this))).
Proof.
  intros Hinv. split_and!; intros ?.
  - by apply ledgerInvariant_registerDeliveredItems.
  - by apply ledgerInvariant_generateBill.
  - by apply ledgerInvariant_registerPayment.
Qed.

Lemma NoDup_pair (x y : Z) : x ≠ y → NoDup [x; y].
Proof.
  intros Hne. apply NoDup_cons_2; [|apply NoDup_singleton].
  by intros ?%list_elem_of_singleton.
Qed.

Lemma ledgerInvariant_busy : ledgerInvariant busyService.
Proof.
  split; simpl.
  - by apply NoDup_pair.
  - repeat apply Forall_cons_2; [| |constructor]; simpl.
    + by apply NoDup_pair.
    + apply NoDup_singleton.
  - by apply NoDup_pair.
Qed.

(** The invariant on a service with two guests, three delivered orders
    and two open bills, and after each kind of step from there: a delivery
    merged into an existing order line, a delivery that opens a new line, a
    delivery for a new guest, the regeneration of guest 1's open bill (which
    picks up order 3), a first bill for a guest without one, and the payment
    of bill 1 (which succeeds and removes order 1 from the ledger). *)
Lemma ledgerInvariant_preserved_witness :
  let merged := {| ir_guest := 1; ir_order := 1; ir_food := [101]; ir_drinks := [] |} in
  let opened := {| ir_guest := 2; ir_order := 4; ir_food := []; ir_drinks := [201] |} in
  let arrived := {| ir_guest := 3; ir_order := 5; ir_food := [102]; ir_drinks := [] |} in
  let entry1 := {| guest := 1;
                   orders := [{| order := 1; food := [101; 102]; drinks := [201] |};
                              {| order := 3; food := [101]; drinks := [] |}] |} in
  let entry3 := {| guest := 3; orders := [{| order := 5; food := [102]; drinks := [] |}] |} in
  ledgerInvariant busyService ∧
  (ledgerLine (registerDeliveredItems merged busyService) 1 1
     = Some {| order := 1; food := [101; 102; 101]; drinks := [201] |} ∧
   ledgerInvariant (registerDeliveredItems merged busyService)) ∧
  (ledgerLine (registerDeliveredItems opened busyService) 2 4
     = Some {| order := 4; food := []; drinks := [201] |} ∧
   ledgerInvariant (registerDeliveredItems opened busyService)) ∧
  (length (guestOrders (registerDeliveredItems arrived busyService)) = 3%nat ∧
   ledgerInvariant (registerDeliveredItems arrived busyService)) ∧
  (generateBill entry1 busyService
     = Return {| gb_bill := 1; orderedDrinks := [201]; orderedFood := [101; 102; 101];
                 gb_totalSum := 20 |}
         (final_state (generateBill entry1 busyService)) ∧
   ledgerInvariant (final_state (generateBill entry1 busyService))) ∧
  (generateBill entry3 busyService
     = Return {| gb_bill := 3; orderedDrinks := []; orderedFood := [102];
                 gb_totalSum := 7 |}
         (final_state (generateBill entry3 busyService)) ∧
   ledgerInvariant (final_state (generateBill entry3 busyService))) ∧
  (registerPayment 1 busyService
     = Return {| pb_bill := 1;
                 paidOrders := [{| po_order := 1; paidDrinks := [201];
                                   paidFood := [101; 102] |}];
                 pb_totalSum := 15 |}
         (final_state (registerPayment 1 busyService)) ∧
   ledgerLine (final_state (registerPayment 1 busyService)) 1 1 = None ∧
   ledgerInvariant (final_state (registerPayment 1 busyService))).
Proof.
  intros merged opened arrived entry1 entry3.
  destruct (ledgerInvariant_preserved busyService ledgerInvariant_busy)
    as (Hdeliver & Hgenerate & Hpay).
  split_and!; try reflexivity.
  - exact ledgerInvariant_busy.
  - exact (Hdeliver merged).
  - exact (Hdeliver opened).
  - exact (Hdeliver arrived).
  - exact (Hgenerate entry1).
  - exact (Hgenerate entry3).
  - exact (Hpay 1).
Defined.

(** ** The retry schedule *)

(** The cooldown branch sets the counter to [MAX_RETRY_COUNT] and the
    decrement shared with the other branch takes one off again. *)
Lemma handleGetMenuErrors_cooldown this :
  retryCounter this ≤ 0 →
  fst (handleGetMenuErrors this) = Some 60000 ∧
  retryCounter (snd (handleGetMenuErrors this)) = MAX_RETRY_COUNT - 1.
Proof.
  intros Hzero. unfold handleGetMenuErrors.
  rewrite decide_False by lia. done.
Qed.

Lemma handleGetMenuErrors_short this :
  0 < retryCounter this →
  fst (handleGetMenuErrors this)
    = (λ f, f * 1000) <$> at_index (fibonacciSeq this) (MAX_RETRY_COUNT - retryCounter this) ∧
  retryCounter (snd (handleGetMenuErrors this)) = retryCounter this - 1.
Proof.
  intros Hpos. unfold handleGetMenuErrors.
  rewrite decide_True by lia. done.
Qed.

Lemma failures_add j k : failures (j + k) = failures j ++ failures k.
Proof. apply replicate_add. Qed.

Lemma getMenu_failures_app k rest this :
  getMenu (failures k ++ rest) this =
    (fst (getMenu (failures k) this)
       ++ fst (getMenu rest (snd (getMenu (failures k) this))),
     snd (getMenu rest (snd (getMenu (failures k) this)))).
Proof.
  unfold failures. revert this. induction k as [|k IH]; intros this; simpl.
  - by destruct (getMenu rest this).
  - destruct (handleGetMenuErrors this) as [retryIn this1].
    rewrite (IH this1).
    destruct (getMenu (replicate k None) this1) as [waits this2]. simpl.
    by destruct (getMenu rest this2).
Qed.

(** From the state a cooldown leaves, five failures give four short waits
    and the next cooldown, and lead back to the same state. *)
Lemma getMenu_cycle (f1 f2 f3 f4 f5 : Z) n :
  getMenu (failures (5 * n)) (serviceAfterCooldown [f1; f2; f3; f4; f5])
    = (concat (replicate n [Some (f2 * 1000); Some (f3 * 1000); Some (f4 * 1000);
                            Some (f5 * 1000); Some 60000]),
       serviceAfterCooldown [f1; f2; f3; f4; f5]).
Proof.
  induction n as [|n IH]; [done|].
  replace (5 * S n)%nat with (5 + 5 * n)%nat by lia.
  rewrite failures_add, (getMenu_failures_app 5).
  change (snd (getMenu (failures 5) (serviceAfterCooldown [f1; f2; f3; f4; f5])))
    with (serviceAfterCooldown [f1; f2; f3; f4; f5]).
  rewrite IH. reflexivity.
Qed.

(** C8: the waits of a run of failed attempts, for any precomputed sequence
    of five numbers and for the Fibonacci sequence 1,1,2,3,5.  The first
    five waits follow the sequence and the sixth is the cooldown of 60,000
    ms; after a cooldown only four short retries follow, with the waits of
    positions 2 to 5, before the next cooldown, in every later cycle: the
    first element of the sequence is not used again. *)
Theorem getMenu_retry_waits (f1 f2 f3 f4 f5 : Z) :
  (∀ n,
     fst (getMenu (failures (6 + 5 * n)) (serviceWithSequence [f1; f2; f3; f4; f5]))
       = [Some (f1 * 1000); Some (f2 * 1000); Some (f3 * 1000); Some (f4 * 1000);
          Some (f5 * 1000); Some 60000]
         ++ concat (replicate n [Some (f2 * 1000); Some (f3 * 1000); Some (f4 * 1000);
                                 Some (f5 * 1000); Some 60000])) ∧
  fst (getMenu (failures 11) newBillingService)
    = [Some 1000; Some 1000; Some 2000; Some 3000; Some 5000; Some 60000;
       Some 1000; Some 2000; Some 3000; Some 5000; Some 60000].
Proof.
  split; [|reflexivity].
  intros n. rewrite failures_add, (getMenu_failures_app 6).
  change (snd (getMenu (failures 6) (serviceWithSequence [f1; f2; f3; f4; f5])))
    with (serviceAfterCooldown [f1; f2; f3; f4; f5]).
  rewrite (getMenu_cycle f1 f2 f3 f4 f5 n). reflexivity.
Qed.

(** * Further properties of the billing service *)

(** ** A bill that is generated and paid at once *)

Lemma list_find_NoDup_key {A} (key : A → Z) (l : list A) i x :
  NoDup (key <$> l) → l !! i = Some x →
  list_find (λ y, key y = key x) l = Some (i, x).
Proof.
  intros Hnd Hl. apply list_find_Some. split_and!; [done..|].
  intros j y Hj Hlt Hkey.
  assert (j = i); [|lia].
  eapply (NoDup_lookup (key <$> l)); [done| |].
  - by rewrite list_lookup_fmap, Hj.
  - by rewrite list_lookup_fmap, Hl, Hkey.
Qed.

Lemma removeOccurrence_head (l : list Z) (x : Z) : removeOccurrence (x :: l) x = l.
Proof.
  rewrite (removeOccurrence_delete _ _ 0%nat); [done|].
  simpl. by rewrite decide_True.
Qed.

(** Removing, id by id, what a list holds from that list followed by more
    ids leaves the ids that follow, in their order. *)
Lemma foldl_removeOccurrence_app (billed late : list Z) :
  foldl removeOccurrence (billed ++ late) billed = late.
Proof.
  induction billed as [|x billed IH]; simpl; [done|].
  by rewrite removeOccurrence_head.
Qed.

Lemma foldl_removeOccurrence_self (l : list Z) : foldl removeOccurrence l l = [].
Proof. by rewrite <- (app_nil_r l) at 1; rewrite foldl_removeOccurrence_app. Qed.

Lemma foldl_addOrder_find_stale new l k i x :
  list_find (λ billOrder, order billOrder = k) l = Some (i, x) →
  k ∉ order <$> new →
  list_find (λ billOrder, order billOrder = k) (foldl addOrder l new) = Some (i, x).
Proof.
  revert l. induction new as [|o new IH]; intros l Hk Hnew; simpl; [done|].
  apply IH.
  - apply addOrder_find_other; [done|]. intros Heq. apply Hnew. csimpl.
    rewrite <- Heq. by left.
  - intros ?. apply Hnew. csimpl. by right.
Qed.

(** On a regenerated bill, the first line of an order id of the ledger
    entry is the entry's line. *)
Lemma foldl_addOrder_find new l o :
  NoDup (order <$> new) → o ∈ new →
  find (λ billOrder, order billOrder = order o) (foldl addOrder l new) = Some o.
Proof.
  revert l. induction new as [|o' new IH]; intros l Hnd Ho; simpl.
  - by apply elem_of_nil in Ho.
  - csimpl in Hnd. apply list.NoDup_cons in Hnd as [Hfresh Hnd].
    apply elem_of_cons in Ho as [->|Ho]; [|by apply IH].
    destruct (addOrder_find_new l o') as [i Hi].
    eapply find_of_list_find. by apply foldl_addOrder_find_stale.
Qed.

Lemma filter_nonEmptyLine_nil (os : list OrderLine) :
  Forall emptyLine os → filter nonEmptyLine os = [].
Proof.
  induction 1 as [|o os [Hf Hd] _ IH]; [done|].
  rewrite filter_cons_False; [done|]. intros [?|?]; congruence.
Qed.

(** Paying a bill whose lines mirror the ledger lines of its guest empties
    every line of the guest. *)
Lemma removeBilledItems_mirror b (os : list OrderLine) :
  (∀ o, o ∈ os → find (λ billOrder, order billOrder = order o) (bill_orders b) = Some o) →
  Forall emptyLine (removeBilledItems b <$> os).
Proof.
  intros Hmirror. apply Forall_fmap, list.Forall_forall. intros o Ho.
  unfold compose, removeBilledItems, emptyLine. rewrite (Hmirror o Ho). simpl.
  by rewrite !foldl_removeOccurrence_self.
Qed.

(** What [generateBill] returns and stores, whichever branch it took. *)
Lemma generateBill_Return_inv gd this guestBill this1 :
  generateBill gd this = Return guestBill this1 →
  ∃ ni newBill base,
    guestBill = guestBillOf newBill ∧
    bills this1 !! ni = Some newBill ∧
    bill_guest newBill = guest gd ∧
    bill_orders newBill = foldl addOrder base (orders gd) ∧
    guestOrders this1 = guestOrders this ∧
    menu this1 = menu this ∧
    (∀ b, openBill this (guest gd) = Some b → base = bill_orders b) ∧
    (openBill this (guest gd) = None → base = []).
Proof.
  intros Hgen. unfold openBill.
  destruct (list_find (λ b', bill_guest b' = guest gd) (bills this)) as [[bi b]|] eqn:Hb.
  - rewrite (generateBill_found _ _ _ _ Hb) in Hgen.
    destruct (calculateTotalSum _ _) as [newBill|e] eqn:Hsum; [|done].
    injection Hgen as <- <-.
    pose proof (calculateTotalSum_fields _ _ _ Hsum) as (_ & Hguest & Horders).
    pose proof Hb as (_ & Hbg & _)%list_find_Some.
    exists bi, newBill, (bill_orders b). split_and!; try done.
    + simpl. apply list_lookup_insert_eq. by eapply list_find_lt.
    + by rewrite Hguest.
    + rewrite (find_of_list_find _ _ _ _ Hb). by intros b' [= <-].
    + by rewrite (find_of_list_find _ _ _ _ Hb).
  - rewrite (generateBill_new _ _ Hb) in Hgen.
    destruct (calculateTotalSum _ _) as [newBill|e] eqn:Hsum; [|done].
    injection Hgen as <- <-.
    pose proof (calculateTotalSum_fields _ _ _ Hsum) as (_ & Hguest & Horders).
    exists (length (bills this)), newBill, []. split_and!; try done.
    + simpl. by rewrite lookup_app_r, Nat.sub_diag.
    + by rewrite (find_None_of_list_find _ _ Hb).
Qed.

(** X1: when the bill ids are distinct and a bill is generated from the
    guest's own ledger entry (distinct order ids) and paid right away, the
    payment returns a receipt with the bill's id and total that lists every
    ledger line of the guest, leaves the guest's entry without order lines
    and closes the bill. *)
Theorem generateBill_registerPayment_settles this gi entry guestBill this1 :
  billIdsFresh this →
  list_find (λ items, guest items = guest entry) (guestOrders this) = Some (gi, entry) →
  NoDup (order <$> orders entry) →
  generateBill entry this = Return guestBill this1 →
  ∃ paid this2,
    registerPayment (gb_bill guestBill) this1 = Return paid this2 ∧
    pb_bill paid = gb_bill guestBill ∧
    pb_totalSum paid = gb_totalSum guestBill ∧
    (∀ o, o ∈ orders entry → paidOrderOf o ∈ paidOrders paid) ∧
    guestOrders this2 = <[gi := {| guest := guest entry; orders := [] |}]> (guestOrders this) ∧
    Forall (λ b, bill b ≠ gb_bill guestBill) (bills this2).
Proof.
  intros Hfresh Hentry Hnd Hgen.
  destruct (generateBill_Return_inv _ _ _ _ Hgen)
    as (ni & newBill & base & -> & Hni & Hguest & Horders & Hledger & _).
  assert (billIdsFresh this1) as [Hids _].
  { pose proof (proj1 (proj2 (billIdsFresh_preserved this Hfresh)) entry) as H.
    by rewrite Hgen in H. }
  pose proof (list_find_NoDup_key bill _ _ _ Hids Hni) as Hbill.
  assert (list_find (λ items, guest items = bill_guest newBill) (guestOrders this1)
          = Some (gi, entry)) as Hg by (by rewrite Hguest, Hledger).
  cbn [gb_bill gb_totalSum guestBillOf].
  rewrite (registerPayment_found _ _ _ _ _ _ Hbill Hg).
  eexists _, _. split; [done|]. simpl. split_and!; [done..| | |].
  - intros o Ho. apply list_elem_of_fmap_2. rewrite Horders.
    by apply foldl_addOrder_elem_new.
  - rewrite Hledger. do 2 f_equal. apply filter_nonEmptyLine_nil.
    apply removeBilledItems_mirror. intros o Ho. rewrite Horders.
    by apply foldl_addOrder_find.
  - apply (list_find_None (λ y, bill y = bill newBill)).
    by apply (list_find_delete_None bill).
Qed.

(** The end-to-end scenario on the ledger of [paidScenario], before any
    bill is open: bill 1 of total 15 is generated and paid. *)
Lemma generateBill_registerPayment_settles_witness :
  let entry := {| guest := 1;
                  orders := [{| order := 1; food := [101; 102]; drinks := [201] |}] |} in
  let this := set_menu (Some menuOfTheDay) (set_guestOrders [entry] newBillingService) in
  let guestBill := {| gb_bill := 1; orderedDrinks := [201]; orderedFood := [101; 102];
                      gb_totalSum := 15 |} in
  ∃ paid this2,
    registerPayment 1 (final_state (generateBill entry this)) = Return paid this2 ∧
    pb_bill paid = 1 ∧
    pb_totalSum paid = 15%float ∧
    (∀ o, o ∈ orders entry → paidOrderOf o ∈ paidOrders paid) ∧
    guestOrders this2 = [{| guest := 1; orders := [] |}] ∧
    Forall (λ b, bill b ≠ 1) (bills this2).
Proof.
  intros entry this guestBill.
  exact (generateBill_registerPayment_settles this 0%nat entry guestBill
           (final_state (generateBill entry this))
           billIdsFresh_new eq_refl (NoDup_singleton (1 : Z)) eq_refl).
Defined.

(** ** Deliveries that arrive after the bill *)

Lemma removeBilledItems_late b o late :
  lateOf b o late → removeBilledItems b o = late.
Proof.
  unfold lateOf, removeBilledItems. intros [Horder Hitems].
  destruct (find _ (bill_orders b)) as [billOrder|].
  - destruct Hitems as [-> ->]. rewrite !foldl_removeOccurrence_app.
    rewrite <- Horder. by destruct late.
  - destruct Hitems as [Hfood Hdrinks]. destruct o, late; simpl in *. congruence.
Qed.

Lemma removeBilledItems_lates b (os lates : list OrderLine) :
  Forall2 (lateOf b) os lates → removeBilledItems b <$> os = lates.
Proof.
  induction 1 as [|o late os lates Hlate _ IH]; csimpl; [done|].
  by rewrite (removeBilledItems_late _ _ _ Hlate), IH.
Qed.

(** X2: when every ledger line of the guest holds the billed ids of its
    order followed by further ids, paying the bill leaves exactly those
    further ids, in their order, and drops the lines that have none; lines
    of orders that are not on the bill stay as they are. *)
Theorem registerPayment_keeps_late_deliveries this billId bi b gi entry lates :
  list_find (λ b', bill b' = billId) (bills this) = Some (bi, b) →
  list_find (λ items, guest items = bill_guest b) (guestOrders this) = Some (gi, entry) →
  Forall2 (lateOf b) (orders entry) lates →
  ∃ paid this',
    registerPayment billId this = Return paid this' ∧
    guestOrders this' =
      <[gi := {| guest := guest entry; orders := filter nonEmptyLine lates |}]>
        (guestOrders this).
Proof.
  intros Hb Hg Hlates. rewrite (registerPayment_found _ _ _ _ _ _ Hb Hg).
  eexists _, _. split; [done|]. simpl.
  by rewrite (removeBilledItems_lates _ _ _ Hlates).
Qed.

(** Bill 1 lists plate 101 of order 1; the ledger holds 101 and then 102
    on order 1 and plate 103 on order 2: 102 and 103 stay. *)
Lemma registerPayment_keeps_late_deliveries_witness :
  let b := {| bill := 1; bill_guest := 1;
              bill_orders := [{| order := 1; food := [101]; drinks := [] |}];
              totalSum := 5 |} in
  let entry := {| guest := 1;
                  orders := [{| order := 1; food := [101; 102]; drinks := [] |};
                             {| order := 2; food := [103]; drinks := [] |}] |} in
  let this := set_guestOrders [entry] (set_bills [b] newBillingService) in
  ∃ paid this',
    registerPayment 1 this = Return paid this' ∧
    guestOrders this' =
      [{| guest := 1;
          orders := [{| order := 1; food := [102]; drinks := [] |};
                     {| order := 2; food := [103]; drinks := [] |}] |}].
Proof.
  intros b entry this.
  apply (registerPayment_keeps_late_deliveries this 1 0%nat b 0%nat entry
           [{| order := 1; food := [102]; drinks := [] |};
            {| order := 2; food := [103]; drinks := [] |}]); [reflexivity..|].
  repeat constructor.
Defined.

Lemma filter_insert_among_empty (os : list OrderLine) i x :
  Forall emptyLine os → (i < length os)%nat →
  filter nonEmptyLine (<[i := x]> os) = filter nonEmptyLine [x].
Proof.
  intros Hos. revert i. induction Hos as [|o os [Hf Hd] Hos IH]; intros i Hi; simpl in Hi.
  - lia.
  - assert (¬ nonEmptyLine o) as Ho by (intros [?|?]; congruence).
    destruct i as [|i]; simpl.
    + rewrite (filter_cons _ x os), (filter_cons _ x []).
      rewrite (filter_nonEmptyLine_nil os Hos). done.
    + rewrite filter_cons_False by done. apply IH. lia.
Qed.

Lemma foldl_addOrder_nil_find_None new k :
  k ∉ order <$> new →
  find (λ billOrder, order billOrder = k) (foldl addOrder [] new) = None.
Proof.
  intros Hk. apply find_None_of_list_find, list_find_None, list.Forall_forall.
  intros x [Hx|Hx]%foldl_addOrder_elem_of Heq.
  - by apply elem_of_nil in Hx.
  - apply Hk. rewrite <- Heq. by apply list_elem_of_fmap_2.
Qed.

(** X3: a guest without open bill gets a bill from the own ledger entry
    (distinct order ids, distinct bill ids), then a further delivery for
    that guest arrives, then the bill is paid: the receipt carries the total
    of the bill as generated, and the guest's ledger holds exactly the
    further delivery (nothing, if it had no items). *)
Theorem generateBill_delivery_registerPayment this gi entry guestBill this1 ir :
  billIdsFresh this →
  openBill this (guest entry) = None →
  list_find (λ items, guest items = guest entry) (guestOrders this) = Some (gi, entry) →
  NoDup (order <$> orders entry) →
  generateBill entry this = Return guestBill this1 →
  ir_guest ir = guest entry →
  ∃ paid this3,
    registerPayment (gb_bill guestBill) (registerDeliveredItems ir this1)
      = Return paid this3 ∧
    pb_totalSum paid = gb_totalSum guestBill ∧
    guestOrders this3 =
      <[gi := {| guest := guest entry; orders := filter nonEmptyLine [lineOf ir] |}]>
        (guestOrders this).
Proof.
  intros Hfresh Hnone Hentry Hnd Hgen Hir.
  destruct (generateBill_Return_inv _ _ _ _ Hgen)
    as (ni & newBill & base & -> & Hni & Hguest & Horders & Hledger & _ & _ & Hbase).
  rewrite (Hbase Hnone) in Horders. clear Hbase.
  assert (billIdsFresh this1) as [Hids _].
  { pose proof (proj1 (proj2 (billIdsFresh_preserved this Hfresh)) entry) as H.
    by rewrite Hgen in H. }
  pose proof (list_find_NoDup_key bill _ _ _ Hids Hni) as Hbill.
  pose proof Hentry as (Hgl & _)%list_find_Some.
  assert (∀ o, o ∈ orders entry →
            find (λ billOrder, order billOrder = order o) (bill_orders newBill) = Some o)
    as Hmirror by (intros o Ho; rewrite Horders; by apply foldl_addOrder_find).
  pose proof (removeBilledItems_mirror _ _ Hmirror) as Hempty.
  set (this2 := registerDeliveredItems ir this1).
  assert (bills this2 = bills this1) as Hbills2
    by apply registerDeliveredItems_other_fields.
  assert (∃ entry2,
            guestOrders this2 = <[gi := entry2]> (guestOrders this) ∧
            guest entry2 = guest entry ∧
            filter nonEmptyLine (removeBilledItems newBill <$> orders entry2)
              = filter nonEmptyLine [lineOf ir]) as (entry2 & Hledger2 & Hguest2 & Hlate).
  { unfold this2, registerDeliveredItems. rewrite Hledger, Hir, Hentry.
    destruct (list_find (λ deliveryOrder, order deliveryOrder = ir_order ir)
                (orders entry)) as [[oi line]|] eqn:Ho.
    - eexists. split; [done|]. split; [done|]. simpl.
      pose proof Ho as (Hol & Hop & _)%list_find_Some.
      rewrite list_fmap_insert.
      rewrite filter_insert_among_empty;
        [|done|rewrite length_fmap; by eapply lookup_lt_Some].
      f_equal. f_equal. unfold removeBilledItems. simpl.
      rewrite (Hmirror line) by (by eapply list_elem_of_lookup_2).
      rewrite !foldl_removeOccurrence_app. unfold lineOf. by rewrite Hop.
    - eexists. split; [done|]. split; [done|]. simpl.
      rewrite fmap_app, list.filter_app, (filter_nonEmptyLine_nil _ Hempty). simpl.
      f_equal. f_equal. unfold removeBilledItems. simpl.
      rewrite Horders, foldl_addOrder_nil_find_None; [done|].
      by apply list_find_order_None. }
  assert (list_find (λ items, guest items = bill_guest newBill) (guestOrders this2)
          = Some (gi, entry2)) as Hg2.
  { rewrite Hledger2, Hguest. eapply list_find_insert_hit; [done|]. done. }
  rewrite <- Hbills2 in Hbill.
  cbn [gb_bill gb_totalSum guestBillOf].
  rewrite (registerPayment_found _ _ _ _ _ _ Hbill Hg2).
  eexists _, _. split; [done|]. simpl. split; [done|].
  by rewrite Hledger2, list_insert_insert_eq, Hguest2, Hlate.
Qed.

(** Order 1 is billed at 15, then drink 201 arrives on order 1, then the
    bill is paid: the drink is what the ledger keeps. *)
Lemma generateBill_delivery_registerPayment_witness :
  let entry := {| guest := 1;
                  orders := [{| order := 1; food := [101; 102]; drinks := [201] |}] |} in
  let this := set_menu (Some menuOfTheDay) (set_guestOrders [entry] newBillingService) in
  let ir := {| ir_guest := 1; ir_order := 1; ir_food := []; ir_drinks := [201] |} in
  ∃ paid this3,
    registerPayment 1 (registerDeliveredItems ir (final_state (generateBill entry this)))
      = Return paid this3 ∧
    pb_totalSum paid = 15%float ∧
    guestOrders this3
      = [{| guest := 1; orders := [{| order := 1; food := []; drinks := [201] |}] |}].
Proof.
  intros entry this ir.
  exact (generateBill_delivery_registerPayment this 0%nat entry
           {| gb_bill := 1; orderedDrinks := [201]; orderedFood := [101; 102];
              gb_totalSum := 15 |}
           (final_state (generateBill entry this)) ir
           billIdsFresh_new eq_refl eq_refl (NoDup_singleton (1 : Z)) eq_refl eq_refl).
Defined.

(** ** A regenerated bill mirrors the ledger *)

Lemma foldl_addOrder_mirror rest done base :
  NoDup (order <$> (done ++ rest)) →
  (order <$> base) `prefix_of` (order <$> rest) →
  foldl addOrder (done ++ base) rest = done ++ rest.
Proof.
  revert done base. induction rest as [|o rest IH]; intros done base Hnd Hpre.
  - apply prefix_nil_inv, fmap_nil_inv in Hpre as ->. done.
  - assert (list_find (λ billOrder, order billOrder = order o) done = None) as Hdone.
    { apply list_find_None, list.Forall_forall. intros y Hy Heq.
      rewrite fmap_app in Hnd. apply list.NoDup_app in Hnd as (_ & Hnd & _).
      apply (Hnd (order y)); [by apply list_elem_of_fmap_2|].
      csimpl. rewrite Heq. by left. }
    assert (NoDup (order <$> ((done ++ [o]) ++ rest))) as Hnd'
      by (by rewrite <- app_assoc).
    simpl. destruct base as [|x base].
    + rewrite app_nil_r, (addOrder_miss _ _ Hdone).
      rewrite <- (app_nil_r (done ++ [o])), (IH (done ++ [o]) []); [|done|].
      * by rewrite <- app_assoc.
      * apply prefix_nil.
    + csimpl in Hpre.
      pose proof (prefix_cons_inv_1 _ _ _ _ Hpre) as Hx.
      pose proof (prefix_cons_inv_2 _ _ _ _ Hpre) as Hpre'.
      assert (list_find (λ billOrder, order billOrder = order o) (done ++ x :: base)
              = Some (length done, x)) as Hf.
      { rewrite (list_find_app_r _ _ _ Hdone). simpl. by rewrite decide_True. }
      rewrite (addOrder_hit _ _ _ _ Hf).
      rewrite insert_app_r_alt, Nat.sub_diag by lia. simpl.
      rewrite (app_assoc done [o] base : done ++ o :: base = (done ++ [o]) ++ base).
      rewrite (IH (done ++ [o]) base); [|done..].
      by rewrite <- app_assoc.
Qed.

(** X4: when the ledger entry has distinct order ids and the order ids of
    the guest's open bill, if there is one, are a prefix of them (as they are
    after deliveries that followed the last bill), the regenerated bill has
    exactly the lines of the entry, and the guest bill returned flattens
    them. *)
Theorem generateBill_mirrors_ledger this guestDelivery guestBill this' :
  NoDup (order <$> orders guestDelivery) →
  (∀ b, openBill this (guest guestDelivery) = Some b →
        (order <$> bill_orders b) `prefix_of` (order <$> orders guestDelivery)) →
  generateBill guestDelivery this = Return guestBill this' →
  ∃ newBill,
    openBill this' (guest guestDelivery) = Some newBill ∧
    bill_orders newBill = orders guestDelivery ∧
    gb_bill guestBill = bill newBill ∧
    orderedFood guestBill = flat_map food (orders guestDelivery) ∧
    orderedDrinks guestBill = flat_map drinks (orders guestDelivery).
Proof.
  intros Hnd Hprefix Hgen. unfold openBill in *.
  assert (∀ base newBill,
            (order <$> base) `prefix_of` (order <$> orders guestDelivery) →
            bill_orders newBill = foldl addOrder base (orders guestDelivery) →
            bill_orders newBill = orders guestDelivery) as Hmirror.
  { intros base newBill Hpre ->. by apply (foldl_addOrder_mirror _ []). }
  destruct (list_find (λ b', bill_guest b' = guest guestDelivery) (bills this))
    as [[bi b]|] eqn:Hb.
  - rewrite (generateBill_found _ _ _ _ Hb) in Hgen.
    destruct (calculateTotalSum _ _) as [newBill|e] eqn:Hsum; [|done].
    injection Hgen as <- <-.
    pose proof (calculateTotalSum_fields _ _ _ Hsum) as (_ & Hguest & Horders).
    pose proof Hb as (_ & Hbg & _)%list_find_Some.
    assert (bill_orders newBill = orders guestDelivery) as Heq.
    { apply (Hmirror (bill_orders b)); [|done].
      apply Hprefix. by rewrite (find_of_list_find _ _ _ _ Hb). }
    exists newBill. split_and!; [|done|done|..].
    + simpl. eapply find_insert_hit; [done|]. by rewrite Hguest.
    + simpl. by rewrite Heq.
    + simpl. by rewrite Heq.
  - rewrite (generateBill_new _ _ Hb) in Hgen.
    destruct (calculateTotalSum _ _) as [newBill|e] eqn:Hsum; [|done].
    injection Hgen as <- <-.
    pose proof (calculateTotalSum_fields _ _ _ Hsum) as (_ & Hguest & Horders).
    assert (bill_orders newBill = orders guestDelivery) as Heq.
    { apply (Hmirror []); [apply prefix_nil|done]. }
    exists newBill. split_and!; [|done|done|..].
    + simpl. eapply find_of_list_find, list_find_snoc_new; [done|]. by rewrite Hguest.
    + simpl. by rewrite Heq.
    + simpl. by rewrite Heq.
Qed.

(** The open bill lists order 1 with plate 101; since then plate 102 came
    on order 1 and order 2 came with drink 201: the new bill is the ledger. *)
Lemma generateBill_mirrors_ledger_witness :
  let b := {| bill := 1; bill_guest := 1;
              bill_orders := [{| order := 1; food := [101]; drinks := [] |}];
              totalSum := 5 |} in
  let entry := {| guest := 1;
                  orders := [{| order := 1; food := [101; 102]; drinks := [] |};
                             {| order := 2; food := []; drinks := [201] |}] |} in
  let this := set_menu (Some menuOfTheDay)
                (set_guestOrders [entry] (set_bills [b] newBillingService)) in
  ∃ newBill,
    openBill (final_state (generateBill entry this)) 1 = Some newBill ∧
    bill_orders newBill = orders entry ∧
    1 = bill newBill ∧
    [101; 102] = flat_map food (orders entry) ∧
    [201] = flat_map drinks (orders entry).
Proof.
  intros b entry this.
  apply (generateBill_mirrors_ledger this entry
           {| gb_bill := 1; orderedDrinks := [201]; orderedFood := [101; 102];
              gb_totalSum := 15 |}
           (final_state (generateBill entry this))).
  - apply (NoDup_cons_2 (1 : Z) [2]); [|apply NoDup_singleton].
    intros Hin. apply list_elem_of_singleton in Hin. discriminate Hin.
  - intros b' Hb'. injection Hb' as <-. by exists [2].
  - reflexivity.
Defined.

(** ** What an operation leaves alone *)

Lemma find_delete_miss {A} (P : A → Prop) `{!∀ x, Decision (P x)} (l : list A) i x :
  l !! i = Some x → ¬ P x → find P (delete i l) = find P l.
Proof.
  unfold find. revert i. induction l as [|y l IH]; intros [|i] Hl Hx; simplify_eq/=.
  - rewrite decide_False by done. by destruct (list_find P l) as [[j z]|].
  - case_decide; [done|]. specialize (IH i Hl Hx).
    destruct (list_find P (delete i l)) as [[j z]|],
             (list_find P l) as [[j' z']|]; simplify_eq/=; done.
Qed.

(** X5: [generateBill] never changes the ledger, the menu or the open bill
    of another guest; when it throws, no bill has changed; the bill id
    counter advances by one exactly when the guest had no open bill, also
    when the call throws. *)
Theorem generateBill_frame guestDelivery this :
  guestOrders (final_state (generateBill guestDelivery this)) = guestOrders this ∧
  menu (final_state (generateBill guestDelivery this)) = menu this ∧
  (∀ g, g ≠ guest guestDelivery →
        openBill (final_state (generateBill guestDelivery this)) g = openBill this g) ∧
  (∀ e this', generateBill guestDelivery this = Throw e this' → bills this' = bills this) ∧
  billIdCounter (final_state (generateBill guestDelivery this)) =
    match openBill this (guest guestDelivery) with
    | Some _ => billIdCounter this
    | None => billIdCounter this + 1
    end.
Proof.
  unfold openBill.
  destruct (list_find (λ b', bill_guest b' = guest guestDelivery) (bills this))
    as [[bi b]|] eqn:Hb.
  - rewrite (generateBill_found _ _ _ _ Hb), (find_of_list_find _ _ _ _ Hb).
    destruct (calculateTotalSum _ _) as [newBill|e] eqn:Hsum; simpl.
    + pose proof (calculateTotalSum_fields _ _ _ Hsum) as (_ & Hguest & _).
      pose proof Hb as (Hbl & Hbg & _)%list_find_Some. simpl in Hguest.
      split_and!; try done. intros g Hg.
      apply (find_insert_miss _ _ _ b); [done|congruence|congruence].
    + split_and!; try done. by intros e' this' [= _ <-].
  - rewrite (generateBill_new _ _ Hb), (find_None_of_list_find _ _ Hb).
    destruct (calculateTotalSum _ _) as [newBill|e] eqn:Hsum; simpl.
    + pose proof (calculateTotalSum_fields _ _ _ Hsum) as (_ & Hguest & _).
      simpl in Hguest. split_and!; try done. intros g Hg.
      apply find_snoc_miss. congruence.
    + split_and!; try done. by intros e' this' [= _ <-].
Qed.

(** X6: a payment changes no ledger line and no open bill of a guest other
    than the one the paid bill names, and leaves menu and bill id counter as
    they are. *)
Theorem registerPayment_frame this billId bi b :
  list_find (λ b', bill b' = billId) (bills this) = Some (bi, b) →
  (∀ g o, g ≠ bill_guest b →
     ledgerLine (final_state (registerPayment billId this)) g o = ledgerLine this g o) ∧
  (∀ g, g ≠ bill_guest b →
     openBill (final_state (registerPayment billId this)) g = openBill this g) ∧
  menu (final_state (registerPayment billId this)) = menu this ∧
  billIdCounter (final_state (registerPayment billId this)) = billIdCounter this.
Proof.
  intros Hb.
  destruct (list_find (λ items, guest items = bill_guest b) (guestOrders this))
    as [[gi entry]|] eqn:Hg;
    [|by rewrite (registerPayment_no_guest _ _ _ _ Hb Hg)].
  rewrite (registerPayment_found _ _ _ _ _ _ Hb Hg). simpl.
  pose proof Hb as (Hbl & _)%list_find_Some.
  pose proof Hg as (Hgl & Hgp & _)%list_find_Some.
  split_and!; [| |done..].
  - intros g o Hne. unfold ledgerLine. simpl.
    rewrite (find_insert_miss _ _ _ entry); [done..|congruence|simpl; congruence].
  - intros g Hne. unfold openBill. simpl.
    by apply (find_delete_miss _ _ _ b).
Qed.

(** Guest 2 has a ledger line and an open bill of their own while guest 1
    pays bill 1. *)
Lemma registerPayment_frame_witness :
  let other := {| bill := 2; bill_guest := 2;
                  bill_orders := [{| order := 7; food := [102]; drinks := [] |}];
                  totalSum := 7 |} in
  let this :=
    set_guestOrders
      (guestOrders paidScenario
         ++ [{| guest := 2; orders := [{| order := 7; food := [102]; drinks := [] |}] |}])
      (set_bills (bills paidScenario ++ [other]) paidScenario) in
  ledgerLine (final_state (registerPayment 1 this)) 2 7
    = Some {| order := 7; food := [102]; drinks := [] |} ∧
  openBill (final_state (registerPayment 1 this)) 2 = Some other ∧
  ledgerLine (final_state (registerPayment 1 this)) 1 1 = None.
Proof.
  intros other this.
  destruct (registerPayment_frame this 1 0%nat
              {| bill := 1; bill_guest := 1;
                 bill_orders := [{| order := 1; food := [101; 102]; drinks := [201] |}];
                 totalSum := 15 |} eq_refl) as (Hledger & Hbills & _).
  split_and!.
  - rewrite (Hledger 2 7); [reflexivity|discriminate].
  - rewrite (Hbills 2); [reflexivity|discriminate].
  - reflexivity.
Defined.

(** ** Invariants of the bill book *)









(** ** Bills before the menu has arrived *)

Lemma addLine_empty mo sum o : emptyLine o → addLine mo sum o = Ok sum.
Proof. intros [Hf Hd]. unfold addLine. by rewrite Hd, Hf. Qed.

Lemma addLine_not_loaded sum o : ¬ emptyLine o → addLine None sum o = Err TypeError.
Proof.
  intros Hne. unfold addLine, emptyLine in *.
  destruct (drinks o) as [|d ds]; [|done].
  destruct (food o) as [|f fs]; [|done]. by destruct Hne.
Qed.

Lemma forEach_addLine_empty mo os sum :
  Forall emptyLine os → forEach os (addLine mo) sum = Ok sum.
Proof.
  induction 1 as [|o os Ho _ IH]; [done|].
  cbn [forEach]. by rewrite (addLine_empty _ _ _ Ho).
Qed.

Lemma forEach_addLine_not_loaded os sum o :
  o ∈ os → ¬ emptyLine o → forEach os (addLine None) sum = Err TypeError.
Proof.
  intros Ho Hne. induction os as [|o' os IH]; [by apply elem_of_nil in Ho|].
  cbn [forEach]. destruct (decide (emptyLine o')) as [He|He].
  - rewrite (addLine_empty _ _ _ He). apply IH.
    apply elem_of_cons in Ho as [->|Ho]; done.
  - by rewrite (addLine_not_loaded _ _ He).
Qed.

(** X8: while the menu is not loaded, [generateBill] for a guest without
    open bill whose ledger entry holds no item at all returns an empty bill
    of total 0 under the next bill id; for a ledger entry (distinct order
    ids) that holds at least one item it throws the TypeError of the read on
    [undefined], stores nothing, and the bill id is used up all the same. *)
Theorem generateBill_menu_not_loaded this guestDelivery :
  menu this = None →
  openBill this (guest guestDelivery) = None →
  (Forall emptyLine (orders guestDelivery) →
   ∃ guestBill this',
     generateBill guestDelivery this = Return guestBill this' ∧
     gb_bill guestBill = billIdCounter this ∧
     gb_totalSum guestBill = 0%float ∧
     orderedFood guestBill = [] ∧ orderedDrinks guestBill = [] ∧
     length (bills this') = S (length (bills this))) ∧
  (NoDup (order <$> orders guestDelivery) →
   ¬ Forall emptyLine (orders guestDelivery) →
   generateBill guestDelivery this
     = Throw TypeError (set_billIdCounter (billIdCounter this + 1) this)).
Proof.
  intros Hmenu Hopen. unfold openBill, find in Hopen.
  destruct (list_find (λ b', bill_guest b' = guest guestDelivery) (bills this))
    as [[bi b]|] eqn:Hb; [done|].
  rewrite (generateBill_new _ _ Hb), Hmenu. unfold calculateTotalSum. simpl.
  split.
  - intros Hempty.
    assert (Forall emptyLine (foldl addOrder [] (orders guestDelivery))) as Hlines.
    { apply list.Forall_forall. intros o [Ho|Ho]%foldl_addOrder_elem_of.
      - by apply elem_of_nil in Ho.
      - by apply (proj1 (list.Forall_forall _ _) Hempty). }
    rewrite (forEach_addLine_empty _ _ _ Hlines). simpl.
    eexists _, _. split; [done|]. simpl. split_and!; [done..| | |].
    + induction Hlines as [|o os [Hf _] _ IH]; [done|]. simpl. by rewrite Hf, IH.
    + induction Hlines as [|o os [_ Hd] _ IH]; [done|]. simpl. by rewrite Hd, IH.
    + rewrite length_app. simpl. lia.
  - intros Hnd Hsome.
    apply not_Forall_Exists, list.Exists_exists in Hsome as (o & Ho & Hne); [|apply _].
    erewrite forEach_addLine_not_loaded; [done| |exact Hne].
    by apply foldl_addOrder_elem_new.
Qed.

(** A fresh service, menu still missing: an entry without items gets bill
    1 of total 0; an entry with a plate throws and uses up bill id 1. *)
Lemma generateBill_menu_not_loaded_witness :
  let idle := {| guest := 1; orders := [{| order := 1; food := []; drinks := [] |}] |} in
  let served := {| guest := 1; orders := [{| order := 1; food := [101]; drinks := [] |}] |} in
  (∃ guestBill this',
     generateBill idle newBillingService = Return guestBill this' ∧
     gb_bill guestBill = 1 ∧
     gb_totalSum guestBill = 0%float ∧
     orderedFood guestBill = [] ∧ orderedDrinks guestBill = [] ∧
     length (bills this') = 1%nat) ∧
  generateBill served newBillingService
    = Throw TypeError (set_billIdCounter 2 newBillingService).
Proof.
  intros idle served. split.
  - apply (generateBill_menu_not_loaded newBillingService idle eq_refl eq_refl).
    repeat constructor.
  - apply (generateBill_menu_not_loaded newBillingService served eq_refl eq_refl).
    + apply (NoDup_singleton (1 : Z)).
    + intros Hall. apply list.Forall_cons in Hall as [[Hfood _] _]. discriminate Hfood.
Defined.

(** ** Fetching the menu *)

Lemma handleGetMenuErrors_fields this :
  bills (snd (handleGetMenuErrors this)) = bills this ∧
  guestOrders (snd (handleGetMenuErrors this)) = guestOrders this ∧
  menu (snd (handleGetMenuErrors this)) = menu this ∧
  billIdCounter (snd (handleGetMenuErrors this)) = billIdCounter this ∧
  fibonacciSeq (snd (handleGetMenuErrors this)) = fibonacciSeq this.
Proof. unfold handleGetMenuErrors. by case_decide. Qed.

Lemma getMenu_failures_fields k this :
  bills (snd (getMenu (failures k) this)) = bills this ∧
  guestOrders (snd (getMenu (failures k) this)) = guestOrders this ∧
  menu (snd (getMenu (failures k) this)) = menu this ∧
  billIdCounter (snd (getMenu (failures k) this)) = billIdCounter this ∧
  length (fst (getMenu (failures k) this)) = k.
Proof.
  unfold failures. revert this. induction k as [|k IH]; intros this; simpl; [done|].
  destruct (handleGetMenuErrors_fields this) as (Hb & Hg & Hm & Hc & _).
  destruct (handleGetMenuErrors this) as [retryIn this1]. simpl in *.
  specialize (IH this1).
  destruct (getMenu (replicate k None) this1) as [waits this2]. simpl in *.
  destruct IH as (-> & -> & -> & -> & ->). by rewrite Hb, Hg, Hm, Hc.
Qed.

(** X9: [getMenu] keeps retrying until the first attempt that succeeds:
    after [k] failed attempts and a successful one the menu is the one
    fetched, exactly [k] waits were made (the same as without the success),
    later answers play no part, and bills, ledger and bill id counter are
    untouched; as long as every attempt fails the menu stays as it was. *)
Theorem getMenu_first_success k m rest this :
  menu (snd (getMenu (failures k ++ Some m :: rest) this)) = Some m ∧
  fst (getMenu (failures k ++ Some m :: rest) this) = fst (getMenu (failures k) this) ∧
  length (fst (getMenu (failures k ++ Some m :: rest) this)) = k ∧
  bills (snd (getMenu (failures k ++ Some m :: rest) this)) = bills this ∧
  guestOrders (snd (getMenu (failures k ++ Some m :: rest) this)) = guestOrders this ∧
  billIdCounter (snd (getMenu (failures k ++ Some m :: rest) this)) = billIdCounter this ∧
  menu (snd (getMenu (failures k) this)) = menu this.
Proof.
  rewrite getMenu_failures_app. simpl.
  destruct (getMenu_failures_fields k this) as (Hb & Hg & Hm & Hc & Hlen).
  rewrite app_nil_r. by split_and!.
Qed.

Lemma handleGetMenuErrors_range this :
  0 ≤ retryCounter this ≤ MAX_RETRY_COUNT →
  (Z.to_nat MAX_RETRY_COUNT ≤ length (fibonacciSeq this))%nat →
  0 ≤ retryCounter (snd (handleGetMenuErrors this)) ≤ MAX_RETRY_COUNT ∧
  ∃ ms, fst (handleGetMenuErrors this) = Some ms ∧
        (ms = 60000 ∨ ∃ f, f ∈ fibonacciSeq this ∧ ms = f * 1000).
Proof.
  unfold MAX_RETRY_COUNT. intros Hrange Hlen. unfold handleGetMenuErrors, MAX_RETRY_COUNT.
  destruct (decide (0 < retryCounter this)) as [Hpos|Hzero]; simpl.
  - split; [lia|]. unfold at_index. rewrite decide_True by lia.
    destruct (lookup_lt_is_Some_2 (fibonacciSeq this) (Z.to_nat (5 - retryCounter this)))
      as [f Hf]; [lia|].
    rewrite Hf. simpl. eexists. split; [done|]. right. exists f.
    split; [by eapply list_elem_of_lookup_2|done].
  - split; [lia|]. eexists. split; [done|]. by left.
Qed.

(** X10: with the retry counter between 0 and [MAX_RETRY_COUNT] and a
    precomputed sequence of at least [MAX_RETRY_COUNT] numbers, every wait of
    [getMenu] is a number: the cooldown of 60,000 ms or 1000 times an
    element of the sequence; the index into the sequence never leaves it,
    and the counter stays in that range. *)
Theorem getMenu_waits_defined answers this :
  0 ≤ retryCounter this ≤ MAX_RETRY_COUNT →
  (Z.to_nat MAX_RETRY_COUNT ≤ length (fibonacciSeq this))%nat →
  Forall (λ wait, ∃ ms, wait = Some ms ∧
                        (ms = 60000 ∨ ∃ f, f ∈ fibonacciSeq this ∧ ms = f * 1000))
         (fst (getMenu answers this)) ∧
  0 ≤ retryCounter (snd (getMenu answers this)) ≤ MAX_RETRY_COUNT.
Proof.
  revert this. induction answers as [|[m|] answers IH]; intros this Hrange Hlen; simpl.
  - split; [constructor|done].
  - split; [constructor|done].
  - destruct (handleGetMenuErrors_range this Hrange Hlen) as (Hrange1 & Hwait).
    destruct (handleGetMenuErrors_fields this) as (_ & _ & _ & _ & Hseq).
    destruct (handleGetMenuErrors this) as [retryIn this1]. simpl in *.
    rewrite <- Hseq in Hlen. specialize (IH this1 Hrange1 Hlen).
    destruct (getMenu answers this1) as [waits this2]. simpl in *.
    destruct IH as [Hwaits Hrange2]. rewrite Hseq in Hwaits.
    split; [by constructor|done].
Qed.

(** The fresh service against seven failed attempts. *)
Lemma getMenu_waits_defined_witness :
  Forall (λ wait, ∃ ms, wait = Some ms ∧
                        (ms = 60000 ∨
                         ∃ f, f ∈ fibonacciSeq newBillingService ∧ ms = f * 1000))
         (fst (getMenu (failures 7) newBillingService)) ∧
  0 ≤ retryCounter (snd (getMenu (failures 7) newBillingService)) ≤ MAX_RETRY_COUNT.
Proof.
  apply (getMenu_waits_defined (failures 7) newBillingService).
  - split; vm_compute; discriminate.
  - vm_compute. lia.
Defined.

(** * Properties of the table service *)

Section TableServiceFacts.
Import TableService.

Lemma foldl_max_spec (ps : list Z) (h : Z) :
  h ≤ foldl Z.max h ps ∧
  (∀ p, p ∈ ps → p ≤ foldl Z.max h ps) ∧
  (foldl Z.max h ps = h ∨ foldl Z.max h ps ∈ ps).
Proof.
  revert h. induction ps as [|p ps IH]; intros h; simpl.
  - split_and!; [lia| |by left]. intros p Hp. by apply elem_of_nil in Hp.
  - destruct (IH (Z.max h p)) as (Hge & Hall & Hin). split_and!.
    + lia.
    + intros q [->|Hq]%elem_of_cons; [lia|by apply Hall].
    + destruct Hin as [Heq|Hin]; [|right; by right].
      rewrite Heq. destruct (Z.max_spec h p) as [[_ ->]|[_ ->]]; [right; by left|by left].
Qed.

Lemma higher_position (p h : Z) : (if decide (p > h) then p else h) = Z.max h p.
Proof. case_decide; lia. Qed.

Lemma sendFoodItems_orderNumber foodOrder h w h' w' :
  sendFoodItems foodOrder h w = Resolved h' w' → orderNumber w' = orderNumber w.
Proof.
  revert h w. induction foodOrder as [|foodId rest IH]; intros h w; simpl.
  - by intros [= _ <-].
  - destruct (positions w) as [|[p|] more]; [done| |done].
    intros Hrest. by rewrite (IH _ _ Hrest).
Qed.

(** The loop when every request is answered with a position. *)
Lemma sendFoodItems_resolved foodOrder ps h w rest :
  positions w = (Some <$> ps) ++ rest →
  length ps = length foodOrder →
  sendFoodItems foodOrder h w =
    Resolved (foldl Z.max h ps)
      {| orderNumber := orderNumber w;
         posted := posted w ++ ((λ id, OrderItem id (orderNumber w)) <$> foodOrder);
         positions := rest |}.
Proof.
  revert ps h w. induction foodOrder as [|foodId foodOrder IH]; intros ps h w Hpos Hlen.
  - destruct ps; [|done]. simpl in *. rewrite app_nil_r, <- Hpos. by destruct w.
  - destruct ps as [|p ps]; [done|]. simpl in *. rewrite Hpos.
    rewrite higher_position.
    rewrite (IH ps _ _); [|simpl; by rewrite Hpos|lia]. simpl. by rewrite <- app_assoc.
Qed.

(** The loop when a request fails after [length ps] answered ones. *)
Lemma sendFoodItems_rejected foodOrder ps h w rest :
  positions w = (Some <$> ps) ++ None :: rest →
  (length ps < length foodOrder)%nat →
  sendFoodItems foodOrder h w =
    Rejected
      {| orderNumber := orderNumber w;
         posted := posted w
                     ++ ((λ id, OrderItem id (orderNumber w)) <$> take (S (length ps)) foodOrder);
         positions := rest |}.
Proof.
  revert ps h w. induction foodOrder as [|foodId foodOrder IH]; intros ps h w Hpos Hlen;
    simpl in Hlen; [lia|].
  destruct ps as [|p ps]; simpl in *; rewrite Hpos.
  - unfold answered. simpl. by rewrite Hpos.
  - rewrite (IH ps _ _); [|simpl; by rewrite Hpos|lia]. simpl. by rewrite <- app_assoc.
Qed.

(** X11: a [processOrder] call that gets a position for each of its food
    ids resolves with the order number that stands in every request it
    posted: one [/orderItem] per food id, in order, then one
    [/orderInformation] with guest, food and drinks (no drinks when the
    order names none); the next order number is one higher; the waiting
    time is 4 times the highest position received, and 0 when no position is
    positive or the order has no food. *)
Theorem processOrder_resolves (o : Order) w ps rest :
  positions w = (Some <$> ps) ++ rest →
  length ps = length (food o) →
  ∃ receipt w',
    processOrder o w = Resolved receipt w' ∧
    order receipt = orderNumber w ∧
    orderNumber w' = orderNumber w + 1 ∧
    posted w' = posted w
      ++ ((λ id, OrderItem id (orderNumber w)) <$> food o)
      ++ [OrderInformation (guest o) (food o) (default [] (drink o)) (orderNumber w)] ∧
    positions w' = rest ∧
    0 ≤ waitingTime receipt ∧
    (∀ p, p ∈ ps → 4 * p ≤ waitingTime receipt) ∧
    (waitingTime receipt = 0 ∨ ∃ p, p ∈ ps ∧ waitingTime receipt = 4 * p).
Proof.
  intros Hpos Hlen. unfold processOrder, sendFoodToFoodPreparation.
  rewrite (sendFoodItems_resolved _ _ _ _ _ Hpos Hlen).
  eexists _, _. split; [done|]. simpl.
  destruct (foldl_max_spec ps 0) as (Hge & Hall & Hin).
  unfold calculateWaitingTime, averageWaitingTimePerGuest.
  split_and!; try done; try lia.
  - by rewrite <- app_assoc.
  - intros p Hp. specialize (Hall p Hp). lia.
  - destruct Hin as [->|Hin]; [by left|]. right. eexists. split; [done|]. lia.
Qed.

(** Two plates, answered with positions 3 and 5, for the first order of
    the day: order 1, 20 minutes. *)
Lemma processOrder_resolves_witness :
  let o := {| guest := 4; food := [101; 102]; drink := None |} in
  ∃ receipt w',
    processOrder o (start [Some 3; Some 5]) = Resolved receipt w' ∧
    order receipt = 1 ∧
    orderNumber w' = 2 ∧
    posted w' = [OrderItem 101 1; OrderItem 102 1; OrderInformation 4 [101; 102] [] 1] ∧
    positions w' = [] ∧
    0 ≤ waitingTime receipt ∧
    (∀ p, p ∈ [3; 5] → 4 * p ≤ waitingTime receipt) ∧
    (waitingTime receipt = 0 ∨ ∃ p, p ∈ [3; 5] ∧ waitingTime receipt = 4 * p).
Proof.
  intros o.
  exact (processOrder_resolves o (start [Some 3; Some 5]) [3; 5] [] eq_refl eq_refl).
Defined.

(** X12: when one of the [/orderItem] requests of a [processOrder] call
    fails, the call rejects; the items up to and including the failed one
    were posted under the current order number, no [/orderInformation] is
    posted and the order number is not advanced, so the next call that
    resolves returns that same order number. *)
Theorem processOrder_rejects (o : Order) w ps rest :
  positions w = (Some <$> ps) ++ None :: rest →
  (length ps < length (food o))%nat →
  ∃ w',
    processOrder o w = Rejected w' ∧
    orderNumber w' = orderNumber w ∧
    posted w' = posted w
      ++ ((λ id, OrderItem id (orderNumber w)) <$> take (S (length ps)) (food o)) ∧
    positions w' = rest ∧
    (∀ next receipt w'',
       processOrder next w' = Resolved receipt w'' → order receipt = orderNumber w).
Proof.
  intros Hpos Hlen. unfold processOrder at 1. unfold sendFoodToFoodPreparation.
  rewrite (sendFoodItems_rejected _ _ _ _ _ Hpos Hlen).
  eexists. split; [done|]. simpl. split_and!; [done..|].
  intros next receipt w''. unfold processOrder, sendFoodToFoodPreparation.
  destruct (sendFoodItems (food next) 0 _) as [h w1| |] eqn:Hnext; [|done..].
  intros [= <- _]. simpl.
  rewrite (sendFoodItems_orderNumber _ _ _ _ _ Hnext). simpl. lia.
Qed.

(** The second of two plates cannot be ordered; the next guest's order is
    order 1 again. *)
Lemma processOrder_rejects_witness :
  let o := {| guest := 4; food := [101; 102]; drink := None |} in
  let next := {| guest := 5; food := [103]; drink := Some [201] |} in
  ∃ w',
    processOrder o (start [Some 3; None; Some 1]) = Rejected w' ∧
    orderNumber w' = 1 ∧
    posted w' = [OrderItem 101 1; OrderItem 102 1] ∧
    positions w' = [Some 1] ∧
    ∃ receipt w'', processOrder next w' = Resolved receipt w'' ∧ order receipt = 1.
Proof.
  intros o next.
  destruct (processOrder_rejects o (start [Some 3; None; Some 1]) [3] [Some 1]
              eq_refl (le_n 2)) as (w' & Hrej & Hnum & Hposted & Hpos & Hnext).
  exists w'. split_and!; [done..|].
  injection Hrej as <-. eexists _, _. split; reflexivity.
Defined.

End TableServiceFacts.

(** * Properties of the assistant manager *)

Section AssistantFacts.
Import Assistant.

Lemma sendAll_posts calls st :
  posts (sendAll calls st) = posts st ++ postsFrom (deliveryId st) calls ∧
  deliveryId (sendAll calls st) = deliveryId st + Z.of_nat (length (postsFrom (deliveryId st) calls)) ∧
  (isDelivering st = false → isDelivering (sendAll calls st) = false).
Proof.
  unfold sendAll. revert st. induction calls as [|[d env] calls IH]; intros st; simpl.
  - rewrite app_nil_r. split_and!; [done|lia|done].
  - unfold sendOrderItems at 2 4 6. simpl. destruct (urlParses env); simpl.
    + match goal with |- context [foldl _ ?s calls] => destruct (IH s) as (Hp & Hd & Hf) end.
      simpl in *. rewrite Hp, Hd. rewrite <- app_assoc. simpl.
      split_and!; [done|lia|]. intros _. by apply Hf.
    + apply IH.
Qed.

Lemma postsFrom_ids from calls :
  Forall (λ p, from < delivery p) (postsFrom from calls) ∧
  NoDup (delivery <$> postsFrom from calls).
Proof.
  revert from. induction calls as [|[d env] calls IH]; intros from; simpl.
  - split; constructor.
  - destruct (urlParses env); [|apply IH].
    destruct (IH (from + 1)) as [Hlt Hnd]. split.
    + constructor; [simpl; lia|].
      eapply list.Forall_impl; [exact Hlt|]. intros p ?. simpl in *. lia.
    + csimpl. apply NoDup_cons_2; [|done].
      intros (p & Hp & Hin)%list_elem_of_fmap.
      rewrite list.Forall_forall in Hlt. specialize (Hlt p Hin). simpl in *. lia.
Qed.

(** X13: over any run of [sendOrderItems] calls made one after the other,
    each call whose URL parses posts its delivery once, under the next
    delivery id, whether or not the POST gets through; a call whose URL does
    not parse posts nothing and uses up no id.  So the delivery ids posted
    are consecutive, all above the counter the run started from and
    pairwise distinct, and a manager that was not delivering before the run
    is not delivering after it. *)
Theorem sendOrderItems_delivery_ids calls st :
  posts (sendAll calls st) = posts st ++ postsFrom (deliveryId st) calls ∧
  deliveryId (sendAll calls st)
    = deliveryId st + Z.of_nat (length (postsFrom (deliveryId st) calls)) ∧
  Forall (λ p, deliveryId st < delivery p ≤ deliveryId (sendAll calls st))
         (postsFrom (deliveryId st) calls) ∧
  NoDup (delivery <$> postsFrom (deliveryId st) calls) ∧
  (isDelivering st = false → isDelivering (sendAll calls st) = false).
Proof.
  destruct (sendAll_posts calls st) as (Hposts & Hid & Hflag).
  destruct (postsFrom_ids (deliveryId st) calls) as (Hlt & Hnd).
  split_and!; [done..| |done|done].
  rewrite Hid. clear Hposts Hid Hflag Hlt Hnd.
  generalize (deliveryId st). induction calls as [|[d env] calls IH]; intros from; simpl.
  - constructor.
  - destruct (urlParses env); [|apply IH].
    constructor; [simpl; lia|].
    eapply list.Forall_impl; [apply (IH (from + 1))|].
    intros p ?. simpl in *. lia.
Qed.

End AssistantFacts.

(** * Further properties of the payment options *)

Lemma Prim2SF_20 : Prim2SF 20 = twenty.
Proof. vm_compute. reflexivity. Qed.

(** Pairs of exponent and mantissa compare lexicographically, and that
    order is transitive. *)
Lemma SFcompare_lex_trans (m1 m2 m0 : positive) (e1 e2 e0 : Z) :
  match (e1 ?= e2) with Eq => Pos.compare_cont Eq m1 m2 | Lt => Lt | Gt => Gt end ≠ Gt →
  match (e2 ?= e0) with Eq => Pos.compare_cont Eq m2 m0 | Lt => Lt | Gt => Gt end = Lt →
  match (e1 ?= e0) with Eq => Pos.compare_cont Eq m1 m0 | Lt => Lt | Gt => Gt end = Lt.
Proof.
  change (Pos.compare_cont Eq m1 m2) with (Pos.compare m1 m2).
  change (Pos.compare_cont Eq m2 m0) with (Pos.compare m2 m0).
  change (Pos.compare_cont Eq m1 m0) with (Pos.compare m1 m0).
  destruct (Z.compare_spec e1 e2), (Z.compare_spec e2 e0), (Z.compare_spec e1 e0);
    try lia; try congruence;
    destruct (Pos.compare_spec m1 m2), (Pos.compare_spec m2 m0), (Pos.compare_spec m1 m0);
    try lia; congruence.
Qed.

Lemma SF_le_lt_20 (A B : spec_float) :
  SFleb A B = true → SFltb B twenty = true → SFltb A twenty = true.
Proof.
  unfold SFleb, SFltb, twenty.
  destruct A as [sa|sa| |sa ma ea], B as [sb|sb| |sb mb eb]; cbn [SFcompare];
    try (destruct sa); try (destruct sb); try congruence.
  intros Hle Hlt.
  pose proof (SFcompare_lex_trans ma mb 5629499534213120 ea eb (-48)) as H.
  destruct (match ea ?= eb with
            | Eq => Pos.compare_cont Eq ma mb | Lt => Lt | Gt => Gt end);
  destruct (match eb ?= -48 with
            | Eq => Pos.compare_cont Eq mb 5629499534213120 | Lt => Lt | Gt => Gt end);
    try congruence; rewrite H; congruence.
Qed.

Lemma is_nan_Prim2SF (x : float) : is_nan x = true → Prim2SF x = S754_nan.
Proof.
  unfold is_nan. rewrite FloatAxioms.eqb_spec. unfold SFeqb.
  destruct (Prim2SF x) as [s|s| |s m e]; cbn [SFcompare]; try (destruct s);
    try (intros; discriminate || reflexivity).
  all: rewrite Z.compare_refl;
    change (Pos.compare_cont Eq m m) with (Pos.compare m m);
    rewrite Pos.compare_refl; discriminate.
Qed.

(** X14: the payment options grow with the amount: every method offered
    for an amount is offered for every amount that is at least as large;
    for an amount that is not a number none of the comparisons holds, and
    all three methods are offered. *)
Theorem getPaymentOption_monotone :
  (∀ a b, (a <=? b)%float = true →
     ∀ method, method ∈ getPaymentOption a → method ∈ getPaymentOption b) ∧
  (∀ a, is_nan a = true → getPaymentOption a = [Cash; DebitCard; CreditCard]).
Proof.
  split.
  - intros a b Hle method. unfold getPaymentOption.
    destruct (a <? 20)%float eqn:Ha.
    + intros ->%list_elem_of_singleton. destruct (b <? 20)%float; constructor.
    + destruct (b <? 20)%float eqn:Hb; [|done]. exfalso.
      rewrite ltb_spec, Prim2SF_20 in Ha, Hb. rewrite leb_spec in Hle.
      rewrite (SF_le_lt_20 _ _ Hle Hb) in Ha. discriminate.
  - intros a Hnan. unfold getPaymentOption.
    rewrite ltb_spec, (is_nan_Prim2SF _ Hnan). reflexivity.
Qed.

(** From 12.5 to 80, and an amount that is not a number. *)
Lemma getPaymentOption_monotone_witness :
  (∀ method, method ∈ getPaymentOption 12.5 → method ∈ getPaymentOption 80) ∧
  getPaymentOption nan = [Cash; DebitCard; CreditCard].
Proof.
  destruct getPaymentOption_monotone as [Hmono Hnan]. split.
  - apply Hmono. reflexivity.
  - apply Hnan. reflexivity.
Defined.
